(** * Frontend Quiz app: the quiz session state machine, scoring and
      the persistent-state hook

    A shallow embedding of [src/App.tsx] (the session handlers and the
    deferred continuation of [handleNext]), of [calculateScore] and the
    percentage of [src/components/ResultsScreen.tsx], and of the lazy
    initialiser of [src/hooks/useLocalStorage.ts].

    JavaScript values are modelled as the code uses them:
    - a [string[]] is a list of slots, a slot being a string or
      [undefined] (a hole of a sparse array reads as [undefined] too);
    - the question index is an integer-valued number, a [Z];
    - the score arithmetic of the results screen is IEEE-754 double
      arithmetic, carried out on the primitive binary64 floats;
    - [setTimeout] callbacks wait in a queue next to the session; all
      callbacks of this program use the same delay, so the queue is
      first in, first out. *)

From Stdlib Require Import ZArith Lia Floats.
From stdpp Require Import base list strings gmap.

Local Open Scope Z_scope.

(** ** Types ([src/types.ts]) *)

Record Question := mkQuestion {
  question : string;
  options : list string;
  answer : string
}.

Record Quiz := mkQuiz {
  title : string;
  icon : string;
  questions : list Question
}.

Record QuizData := mkQuizData { quizzes : list Quiz }.

Module QuizState.
Inductive t := menu | question | result | completed.
End QuizState.

(** ** JavaScript arrays of strings *)

(** A slot of a [string[]]: [Some s] for a string, [None] for
    [undefined] or a hole. *)
Definition slot := option string.
Definition js_array := list slot.

(** [a[i]] for a number [i]: [undefined] outside the array (also for a
    negative index, which names no element). *)
Definition array_get (a : js_array) (i : Z) : slot :=
  if i <? 0 then None else mjoin (a !! Z.to_nat i).

(** [a[i] = v]: overwrites inside the array, and past its end grows the
    array, leaving holes between the old end and [i].  A negative [i]
    creates a property that is not an element: the elements are
    unchanged. *)
Definition array_set (a : js_array) (i : Z) (v : string) : js_array :=
  if i <? 0 then a
  else
    let n := Z.to_nat i in
    if (n <? length a)%nat then <[n := Some v]> a
    else a ++ replicate (n - length a)%nat None ++ [Some v].

(** [new Array(n).fill(v)] *)
Definition array_fill (n : nat) (v : string) : js_array := replicate n (Some v).

(** [[...a]]: a fresh array with the same slots (holes become
    [undefined], the same slot here). *)
Definition array_spread (a : js_array) : js_array := a.

(** [x === s] for a slot [x] and a string [s]: [undefined] is never
    strictly equal to a string; two strings are when they are the same
    sequence of characters. *)
Definition strict_eq (x : slot) (s : string) : bool :=
  match x with
  | Some t => bool_decide (t = s)
  | None => false
  end.

(** Truthiness of a slot: [undefined] and the empty string are falsy. *)
Definition truthy (x : slot) : bool :=
  match x with
  | Some s => negb (bool_decide (s = ""%string))
  | None => false
  end.

(** ** The session ([App], [src/App.tsx]) *)

(** The seven [useLocalStorage] cells of [App]. *)
Record Session := mkSession {
  currentState : QuizState.t;
  selectedQuiz : option Quiz;
  isDark : bool;
  currentQuestionIndex : Z;
  selectedAnswers : js_array;
  userAnswers : js_array;
  showFeedback : bool
}.

(** The session together with the [setTimeout] callbacks that wait to
    run.  The only callback of the program is the one of [handleNext];
    it is determined by the [currentQuestionIndex] its closure captured,
    so a pending callback is that number. *)
Record World := mkWorld {
  session : Session;
  timers : list Z
}.

(** The defaults given to [useLocalStorage]. *)
Definition initialSession : Session :=
  mkSession QuizState.menu None true 0 [] [] false.

Definition initialWorld : World := mkWorld initialSession [].

(** The setters returned by [useLocalStorage], on the in-memory cell
    (the hook calls [setStoredValue] before it mirrors the value to
    [localStorage], and catches a failure of the mirror). *)
Definition setCurrentState (v : QuizState.t) (s : Session) : Session :=
  mkSession v (selectedQuiz s) (isDark s) (currentQuestionIndex s)
    (selectedAnswers s) (userAnswers s) (showFeedback s).
Definition setSelectedQuiz (v : option Quiz) (s : Session) : Session :=
  mkSession (currentState s) v (isDark s) (currentQuestionIndex s)
    (selectedAnswers s) (userAnswers s) (showFeedback s).
Definition setIsDark (v : bool) (s : Session) : Session :=
  mkSession (currentState s) (selectedQuiz s) v (currentQuestionIndex s)
    (selectedAnswers s) (userAnswers s) (showFeedback s).
Definition setCurrentQuestionIndex (v : Z) (s : Session) : Session :=
  mkSession (currentState s) (selectedQuiz s) (isDark s) v
    (selectedAnswers s) (userAnswers s) (showFeedback s).
Definition setSelectedAnswers (v : js_array) (s : Session) : Session :=
  mkSession (currentState s) (selectedQuiz s) (isDark s) (currentQuestionIndex s)
    v (userAnswers s) (showFeedback s).
Definition setUserAnswers (v : js_array) (s : Session) : Session :=
  mkSession (currentState s) (selectedQuiz s) (isDark s) (currentQuestionIndex s)
    (selectedAnswers s) v (showFeedback s).
Definition setShowFeedback (v : bool) (s : Session) : Session :=
  mkSession (currentState s) (selectedQuiz s) (isDark s) (currentQuestionIndex s)
    (selectedAnswers s) (userAnswers s) v.

(** A handler reads the cells of the render it was created in ([cur])
    and queues its writes; [upd] lifts a write to the world. *)
Definition upd (f : Session -> Session) (w : World) : World :=
  mkWorld (f (session w)) (timers w).

(** [setTimeout(cb, 1500)] where [cb] captured the index [captured]. *)
Definition setTimeout (captured : Z) (w : World) : World :=
  mkWorld (session w) (timers w ++ [captured]).

(** [selectedQuiz?.questions.length || 0] *)
Definition questions_length_or_0 (q : option Quiz) : Z :=
  match q with
  | Some quiz => Z.of_nat (length (questions quiz))
  | None => 0
  end.

Definition handleQuizSelect (quiz : Quiz) (w : World) : World :=
  let w := upd (setSelectedQuiz (Some quiz)) w in
  let w := upd (setCurrentQuestionIndex 0) w in
  let w := upd (setSelectedAnswers (array_fill (length (questions quiz)) "")) w in
  let w := upd (setUserAnswers []) w in
  let w := upd (setShowFeedback false) w in
  upd (setCurrentState QuizState.question) w.

Definition handleAnswerSelect (answer : string) (w : World) : World :=
  let cur := session w in
  let newSelectedAnswers :=
    array_set (array_spread (selectedAnswers cur)) (currentQuestionIndex cur) answer in
  upd (setSelectedAnswers newSelectedAnswers) w.

(** The body of the callback [handleNext] passes to [setTimeout]. *)
Definition timeout_callback (captured : Z) (s : Session) : Session :=
  setShowFeedback false (setCurrentQuestionIndex (captured + 1) s).

Definition handleNext (w : World) : World :=
  let cur := session w in
  if currentQuestionIndex cur <? questions_length_or_0 (selectedQuiz cur) - 1 then
    let w := upd (setShowFeedback true) w in
    setTimeout (currentQuestionIndex cur) w
  else
    let w := upd (setUserAnswers (array_spread (selectedAnswers cur))) w in
    upd (setCurrentState QuizState.result) w.

Definition handlePrevious (w : World) : World :=
  let cur := session w in
  if currentQuestionIndex cur >? 0 then
    upd (setCurrentQuestionIndex (currentQuestionIndex cur - 1)) w
  else w.

Definition handleBackToMenu (w : World) : World :=
  let w := upd (setCurrentState QuizState.menu) w in
  let w := upd (setSelectedQuiz None) w in
  let w := upd (setCurrentQuestionIndex 0) w in
  let w := upd (setSelectedAnswers []) w in
  let w := upd (setUserAnswers []) w in
  upd (setShowFeedback false) w.

Definition toggleTheme (w : World) : World :=
  upd (setIsDark (negb (isDark (session w)))) w.

(** The oldest pending callback runs; [None] when nothing is pending. *)
Definition fireTimer (w : World) : option World :=
  match timers w with
  | [] => None
  | captured :: rest => Some (mkWorld (timeout_callback captured (session w)) rest)
  end.

(** ** Events *)

Inductive Event :=
| QuizSelect (quiz : Quiz)
| AnswerSelect (answer : string)
| Next
| Previous
| BackToMenu
| ToggleTheme
| TimerFires.

(** What an event does to the world; only a timer that is not pending
    cannot fire. *)
Definition exec (e : Event) (w : World) : option World :=
  match e with
  | QuizSelect quiz => Some (handleQuizSelect quiz w)
  | AnswerSelect a => Some (handleAnswerSelect a w)
  | Next => Some (handleNext w)
  | Previous => Some (handlePrevious w)
  | BackToMenu => Some (handleBackToMenu w)
  | ToggleTheme => Some (toggleTheme w)
  | TimerFires => fireTimer w
  end.

Fixpoint run (es : list Event) (w : World) : option World :=
  match es with
  | [] => Some w
  | e :: es' =>
      match exec e w with
      | Some w' => run es' w'
      | None => None
      end
  end.

(** ** What the rendered screen lets the user do *)

#[global] Instance Question_eq_dec : EqDecision Question.
Proof. solve_decision. Defined.

#[global] Instance Quiz_eq_dec : EqDecision Quiz.
Proof. solve_decision. Defined.

#[global] Instance Event_eq_dec : EqDecision Event.
Proof. solve_decision. Defined.

(** The controls [App] renders in a world, with the [disabled]
    attributes of [QuestionScreen]:
    - the menu shows one button per quiz of the catalogue and the theme
      toggle;
    - the question screen is rendered when a quiz is selected; it reads
      [selectedQuiz.questions[currentQuestionIndex]], offers the options
      of that question while no feedback is shown, [Previous] unless
      the question number is 1, [Next] when the selected answer is
      truthy, and [Back];
    - the results screen offers [Play Again] (the selected quiz) and
      [Back to Menu].
    A pending timer needs no control. *)
Definition clickable (data : QuizData) (w : World) (e : Event) : bool :=
  let cur := session w in
  match e with
  | TimerFires => true
  | _ =>
    match currentState cur, selectedQuiz cur with
    | QuizState.menu, _ =>
        match e with
        | QuizSelect quiz => bool_decide (quiz ∈ quizzes data)
        | ToggleTheme => true
        | _ => false
        end
    | QuizState.question, Some quiz =>
        if currentQuestionIndex cur <? 0 then false
        else
          match questions quiz !! Z.to_nat (currentQuestionIndex cur) with
          | None => false
          | Some q =>
              match e with
              | AnswerSelect a =>
                  bool_decide (a ∈ options q) && negb (showFeedback cur)
              | Previous => negb (currentQuestionIndex cur + 1 =? 1)
              | Next =>
                  truthy (array_get (selectedAnswers cur) (currentQuestionIndex cur))
              | BackToMenu => true
              | _ => false
              end
          end
    | QuizState.result, Some quiz =>
        match e with
        | QuizSelect quiz' => bool_decide (quiz' = quiz)
        | BackToMenu => true
        | _ => false
        end
    | _, _ => false
    end
  end.

(** A run in which every event is one the rendered screen offers. *)
Fixpoint run_ui (data : QuizData) (es : list Event) (w : World) : option World :=
  match es with
  | [] => Some w
  | e :: es' =>
      if clickable data w e then
        match exec e w with
        | Some w' => run_ui data es' w'
        | None => None
        end
      else None
  end.

(** ** Reachable worlds *)

(** The handlers may be called on any screen; a quiz handed to
    [handleQuizSelect] comes from the catalogue. *)
Definition admissible (data : QuizData) (e : Event) : Prop :=
  match e with
  | QuizSelect quiz => quiz ∈ quizzes data
  | _ => True
  end.

Inductive reachable (data : QuizData) : World -> Prop :=
| reachable_init : reachable data initialWorld
| reachable_step w e w' :
    reachable data w -> admissible data e -> exec e w = Some w' ->
    reachable data w'.

(** On the question screen a quiz is selected and the index names one of
    its questions. *)
Definition question_screen_ok (s : Session) : Prop :=
  currentState s = QuizState.question ->
  exists quiz, selectedQuiz s = Some quiz /\
    0 <= currentQuestionIndex s < Z.of_nat (length (questions quiz)).

(** Every quiz of the catalogue has exactly [n] questions. *)
Definition uniform_catalogue (n : nat) (data : QuizData) : Prop :=
  forall quiz, quiz ∈ quizzes data -> length (questions quiz) = n.

(** The invariant that carries [question_screen_ok] through the steps
    when the catalogue is uniform. *)
Definition uniform_inv (n : nat) (w : World) : Prop :=
  let s := session w in
  0 <= currentQuestionIndex s < Z.of_nat n /\
  (forall quiz, selectedQuiz s = Some quiz -> length (questions quiz) = n) /\
  (currentState s = QuizState.question -> selectedQuiz s <> None) /\
  Forall (fun captured => 0 <= captured /\ captured + 1 < Z.of_nat n) (timers w).

(** The number of timer firings in a sequence of events. *)
Fixpoint count_fires (es : list Event) : nat :=
  match es with
  | [] => 0
  | TimerFires :: es' => S (count_fires es')
  | _ :: es' => count_fires es'
  end.

(** The index names a question of the selected quiz. *)
Definition index_in_range (s : Session) : bool :=
  match selectedQuiz s with
  | Some quiz =>
      (0 <=? currentQuestionIndex s) &&
      (currentQuestionIndex s <? Z.of_nat (length (questions quiz)))
  | None => false
  end.

(** ** Scoring ([ResultsScreen], [src/components/ResultsScreen.tsx]) *)

(** The [forEach] of [calculateScore]: the callback sees each question
    with its index and increments [correct] on a strict match. *)
Fixpoint forEach_correct (qs : list Question) (index : nat)
    (userAnswers : js_array) (correct : nat) : nat :=
  match qs with
  | [] => correct
  | q :: rest =>
      let correct :=
        if strict_eq (array_get userAnswers (Z.of_nat index)) (answer q)
        then S correct else correct in
      forEach_correct rest (S index) userAnswers correct
  end.

(** [calculateScore]; the prop [quiz] is an object, so [!quiz] is false. *)
Definition calculateScore (quiz : Quiz) (userAnswers : js_array) : nat :=
  if (length userAnswers =? 0)%nat then 0%nat
  else forEach_correct (questions quiz) 0 userAnswers 0.

(** The number (a double) with an integer value; exact below 2^53, so
    for every array length (array lengths are below 2^32). *)
Definition number_of_Z (z : Z) : float :=
  if z <? 0 then PrimFloat.opp (PrimFloat.of_uint63 (Uint63.of_Z (- z)))
  else PrimFloat.of_uint63 (Uint63.of_Z z).

Definition number_of_nat (n : nat) : float := number_of_Z (Z.of_nat n).

(** [Math.round]: NaN, the infinities and the zeros are returned as they
    are; a finite [x] goes to the integer [floor (x + 1/2)], computed
    exactly on the mantissa and exponent of [x] (a tie goes up), and to
    [-0] when that integer is 0 and [x] is negative.  A double with a
    non-negative exponent is an integer already. *)
Definition Math_round (x : float) : float :=
  match Prim2SF x with
  | S754_finite s m e =>
      if 0 <=? e then x
      else
        let d := 2 ^ (- e) in
        let n := if s then Z.neg m else Z.pos m in
        let r := (2 * n + d) / (2 * d) in
        if (r =? 0) && s then neg_zero else number_of_Z r
  | _ => x
  end.

(** [Math.round((score / totalQuestions) * 100)] *)
Definition percentage_of (score totalQuestions : nat) : float :=
  Math_round
    (PrimFloat.mul
       (PrimFloat.div (number_of_nat score) (number_of_nat totalQuestions))
       100%float).

Definition percentage (quiz : Quiz) (userAnswers : js_array) : float :=
  let score := calculateScore quiz userAnswers in
  let totalQuestions := length (questions quiz) in
  percentage_of score totalQuestions.

(** *** The scoring the specification describes *)

(** The number of indices [i] in range of the questions at which the
    answer list holds exactly the answer of question [i]. *)
Definition matching_indices (quiz : Quiz) (answers : js_array) : list nat :=
  filter (fun i => answers !! i = Some (answer <$> questions quiz !! i))
         (seq 0 (length (questions quiz))).

Definition count_correct (quiz : Quiz) (answers : js_array) : nat :=
  length (matching_indices quiz answers).

(** Round half up of the exact quotient [num / den], for [den > 0]. *)
Definition round_half_up (num den : Z) : Z := (2 * num + den) / (2 * den).

(** The percentage of the specification: the exact value of
    [correct / total * 100], rounded half up. *)
Definition exact_percentage (correct total : nat) : Z :=
  round_half_up (100 * Z.of_nat correct) (Z.of_nat total).

(** The scoring claim at one quiz and answer list. *)
Definition scoring_as_specified (quiz : Quiz) (answers : js_array) : Prop :=
  calculateScore quiz answers = count_correct quiz answers /\
  percentage quiz answers =
    number_of_Z (exact_percentage (count_correct quiz answers)
                                  (length (questions quiz))).

(** The table check behind the bounded agreement of the two
    percentages: every score [c <= t] for every total [1 <= t <= bound]. *)
Definition percentages_agree_upto (bound : nat) : bool :=
  forallb (fun t =>
    forallb (fun c =>
      PrimFloat.Leibniz.eqb (percentage_of c t) (number_of_Z (exact_percentage c t)))
      (seq 0 (S t)))
    (seq 1 bound).

(** ** The persistent-state hook ([src/hooks/useLocalStorage.ts]) *)

(** How an expression completes: with a value, or by throwing. *)
Inductive completion (A : Type) :=
| Normal (a : A)
| Throw (error : string).
Arguments Normal {A} a.
Arguments Throw {A} error.

Definition bind {A B} (c : completion A) (k : A -> completion B) : completion B :=
  match c with
  | Normal a => k a
  | Throw e => Throw e
  end.

(** [try { body } catch (error) { handler }] *)
Definition try_catch {A} (body : completion A) (handler : string -> completion A)
  : completion A :=
  match body with
  | Normal a => Normal a
  | Throw e => handler e
  end.

(** [window.localStorage]: the stored items, or a storage the page may
    not touch (its access throws). *)
Inductive LocalStorage :=
| Available (items : gmap string string)
| Denied (error : string).

(** [window.localStorage.getItem(key)]: the item, [null] when absent. *)
Definition getItem (ls : LocalStorage) (key : string) : completion (option string) :=
  match ls with
  | Available items => Normal (items !! key)
  | Denied e => Throw e
  end.

(** Truthiness of [item]: [null] and the empty string are falsy. *)
Definition item_truthy (item : option string) : bool :=
  match item with
  | Some s => negb (bool_decide (s = ""%string))
  | None => false
  end.

Section UseLocalStorage.
Context {T : Type}.
(** [JSON.parse] at type [T]: the parsed value, or a [SyntaxError]. *)
Variable JSON_parse : string -> completion T.

(** The initialiser [useLocalStorage] passes to [useState]
    ([console.warn] only logs). *)
Definition useLocalStorage_init (ls : LocalStorage) (key : string)
    (initialValue : T) : completion T :=
  try_catch
    (bind (getItem ls key) (fun item =>
       if item_truthy item
       then match item with
            | Some text => JSON_parse text
            | None => Normal initialValue
            end
       else Normal initialValue))
    (fun error => Normal initialValue).
End UseLocalStorage.

(** A [JSON.parse] for booleans, enough to run the hook on the theme
    cell. *)
Definition JSON_parse_boolean (text : string) : completion bool :=
  if bool_decide (text = "true"%string) then Normal true
  else if bool_decide (text = "false"%string) then Normal false
  else Throw "SyntaxError".

(** ** Sample catalogues *)

Definition sampleQuestion (text : string) : Question :=
  mkQuestion text ["A"; "B"; "C"; "D"]%string "B".

(** Two questions. *)
Definition htmlQuiz : Quiz :=
  mkQuiz "HTML" "icon-html.svg" [sampleQuestion "q1"; sampleQuestion "q2"].

(** One question. *)
Definition cssQuiz : Quiz :=
  mkQuiz "CSS" "icon-css.svg" [sampleQuestion "q1"].

Definition twoQuizzes : QuizData := mkQuizData [htmlQuiz; cssQuiz].

(** Start HTML, answer, press Next (feedback shows, the timer is
    pending), go back to the menu, start CSS; then the timer fires. *)
Definition interrupted_run : list Event :=
  [QuizSelect htmlQuiz; AnswerSelect "B"; Next; BackToMenu;
   QuizSelect cssQuiz; TimerFires].

(** Forty questions, and an answer list with the first 23 right. *)
Definition fortyQuiz : Quiz :=
  mkQuiz "Forty" "icon.svg" (replicate 40 (sampleQuestion "q")).

Definition fortyAnswers : js_array :=
  replicate 23 (Some "B"%string) ++ replicate 17 (Some "A"%string).

(** A quiz without questions. *)
Definition emptyQuiz : Quiz := mkQuiz "Empty" "icon.svg" [].

(** A session on the second (last) question of HTML. *)
Definition onLastQuestion : World :=
  mkWorld (mkSession QuizState.question (Some htmlQuiz) true 1
             [Some "B"; Some "A"]%string [] false) [].

(** ** Runs of events *)

(** The number of theme toggles in a sequence of events. *)
Fixpoint count_toggles (es : list Event) : nat :=
  match es with
  | [] => 0
  | ToggleTheme :: es' => S (count_toggles es')
  | _ :: es' => count_toggles es'
  end.

(** [k] times: press Next and wait for the feedback to end; then press
    Next once more. *)
Fixpoint advance_run (k : nat) : list Event :=
  match k with
  | O => [Next]
  | S k' => Next :: TimerFires :: advance_run k'
  end.

(** The worlds reached through the controls the screens render. *)
Inductive reachable_ui (data : QuizData) : World -> Prop :=
| reachable_ui_init : reachable_ui data initialWorld
| reachable_ui_step w e w' :
    reachable_ui data w -> clickable data w e = true -> exec e w = Some w' ->
    reachable_ui data w'.

(** ** What [App] passes to [QuestionScreen] *)

(** [isLastQuestion={currentQuestionIndex === selectedQuiz.questions.length - 1}] *)
Definition isLastQuestion (quiz : Quiz) (s : Session) : bool :=
  currentQuestionIndex s =? Z.of_nat (length (questions quiz)) - 1.

(** [questionNumber={currentQuestionIndex + 1}] *)
Definition questionNumber (s : Session) : Z := currentQuestionIndex s + 1.

(** [disabled={questionNumber === 1}] of the Previous button. *)
Definition previous_disabled (s : Session) : bool := questionNumber s =? 1.

(** A second two-question quiz, and a catalogue whose quizzes all have
    two questions. *)
Definition jsQuiz : Quiz :=
  mkQuiz "JavaScript" "icon-js.svg" [sampleQuestion "q1"; sampleQuestion "q2"].

Definition evenQuizzes : QuizData := mkQuizData [htmlQuiz; jsQuiz].

(** ** The setter of the hook ([setValue], [src/hooks/useLocalStorage.ts]) *)

(** The state the hook owns for one key: the React state cell filled by
    [setStoredValue], and [window.localStorage]. *)
Record HookCell (T : Type) := mkHookCell {
  cell_value : T;
  cell_storage : LocalStorage
}.
Arguments mkHookCell {T} _ _.
Arguments cell_value {T} _.
Arguments cell_storage {T} _.

(** A statement of the hook: it changes the cell and completes normally
    or by throwing; what it changed before a throw stays changed. *)
Definition hook_stmt (T A : Type) : Type := HookCell T -> HookCell T * completion A.

Definition hook_ret {T A} (a : A) : hook_stmt T A := fun c => (c, Normal a).

Definition hook_bind {T A B} (m : hook_stmt T A) (k : A -> hook_stmt T B)
  : hook_stmt T B :=
  fun c =>
    match m c with
    | (c', Normal a) => k a c'
    | (c', Throw e) => (c', Throw e)
    end.

Definition hook_lift {T A} (r : completion A) : hook_stmt T A := fun c => (c, r).

(** [try { body } catch (error) { handler }] around statements. *)
Definition hook_try {T A} (body : hook_stmt T A) (handler : string -> hook_stmt T A)
  : hook_stmt T A :=
  fun c =>
    match body c with
    | (c', Normal a) => (c', Normal a)
    | (c', Throw e) => handler e c'
    end.

(** The argument of the setter: a value, or a function of the current
    value ([value instanceof Function]). *)
Inductive SetArg (T : Type) :=
| Direct (v : T)
| Updater (f : T -> completion T).
Arguments Direct {T} v.
Arguments Updater {T} f.

Section SetValue.
Context {T : Type}.
(** [JSON.stringify] at type [T]: the text, or a [TypeError]. *)
Variable JSON_stringify : T -> completion string.
(** Whether the browser has room to store [value] under [key] next to
    the items it holds; [setItem] throws a [QuotaExceededError] when it
    has not. *)
Variable has_room : gmap string string -> string -> string -> bool.

(** [window.localStorage.setItem(key, value)] *)
Definition setItem (ls : LocalStorage) (key value : string) : completion LocalStorage :=
  match ls with
  | Available items =>
      if has_room items key value then Normal (Available (<[key := value]> items))
      else Throw "QuotaExceededError"
  | Denied e => Throw e
  end.

(** [setStoredValue(valueToStore)] *)
Definition setStoredValue (valueToStore : T) : hook_stmt T unit :=
  fun c => (mkHookCell valueToStore (cell_storage c), Normal tt).

Definition localStorage_setItem (key value : string) : hook_stmt T unit :=
  fun c =>
    match setItem (cell_storage c) key value with
    | Normal ls => (mkHookCell (cell_value c) ls, Normal tt)
    | Throw e => (c, Throw e)
    end.

(** [setValue], as created by the render in which the hook returned
    [storedValue] ([console.warn] only logs). *)
Definition setValue (key : string) (storedValue : T) (value : SetArg T)
  : hook_stmt T unit :=
  hook_try
    (hook_bind
       (hook_lift (match value with
                   | Updater f => f storedValue
                   | Direct v => Normal v
                   end))
       (fun valueToStore =>
          hook_bind (setStoredValue valueToStore) (fun _ =>
          hook_bind (hook_lift (JSON_stringify valueToStore)) (fun text =>
          localStorage_setItem key text))))
    (fun error => hook_ret tt).
End SetValue.

(** [JSON.stringify] on booleans. *)
Definition JSON_stringify_boolean (b : bool) : completion string :=
  Normal (if b then "true" else "false")%string.

(** A browser with room for everything. *)
Definition always_room (items : gmap string string) (key value : string) : bool := true.

(** ** Answer lists *)

(** The answer list that holds the right answer of every question. *)
Definition right_answers (quiz : Quiz) : js_array :=
  (fun q => Some (answer q)) <$> questions quiz.

(** ** The question screen ([QuestionScreen]) *)

(** The props of [OptionButton] that its styles read. *)
Record OptionProps := mkOptionProps {
  p_isDark : bool;
  p_isSelected : bool;
  p_isCorrect : bool;
  p_showFeedback : bool
}.

(** [background-color] of [OptionButton]. *)
Definition OptionButton_background (p : OptionProps) : string :=
  if p_showFeedback p then
    if p_isCorrect p && p_isSelected p then "#26D782"
    else if negb (p_isCorrect p) && p_isSelected p then "#EE5454"
    else if p_isCorrect p && negb (p_isSelected p) then "#26D782"
    else if p_isDark p then "#3B4D66" else "#F4F6FA"
  else if p_isSelected p then "#a729f5"
  else if p_isDark p then "#3B4D66" else "#F4F6FA".

(** [color] of [OptionButton]. *)
Definition OptionButton_color (p : OptionProps) : string :=
  if p_showFeedback p &&
     (p_isCorrect p || (p_isSelected p && negb (p_isCorrect p))) then "#FFFFFF"
  else if p_isSelected p then "#FFFFFF"
  else if p_isDark p then "#FFFFFF" else "#313E51".

(** The colour of the [border] of [OptionButton]. *)
Definition OptionButton_border (p : OptionProps) : string :=
  if p_showFeedback p then
    if p_isCorrect p then "#26D782"
    else if p_isSelected p && negb (p_isCorrect p) then "#EE5454"
    else "transparent"
  else if p_isSelected p then "#a729f5" else "transparent".

(** [opacity] of [OptionButton] is 0.5 rather than 1. *)
Definition OptionButton_dimmed (p : OptionProps) : bool :=
  p_showFeedback p && negb (p_isCorrect p) && negb (p_isSelected p).

(** The text of [FeedbackIcon]: a check mark or a ballot cross. *)
Inductive FeedbackMark := check_mark | cross_mark.

(** [background-color] of [FeedbackIcon]. *)
Definition FeedbackIcon_background (isCorrect : bool) : string :=
  if isCorrect then "#26D782" else "#EE5454".

(** The icon [QuestionScreen] puts in the button of one option, if any:
    [showFeedback && (isSelected || isCorrect)], with the mark
    [isCorrect ? check : cross]. *)
Definition feedback_icon (p : OptionProps) : option FeedbackMark :=
  if p_showFeedback p && (p_isSelected p || p_isCorrect p)
  then Some (if p_isCorrect p then check_mark else cross_mark)
  else None.

(** The props [QuestionScreen] computes for one option of the question:
    [isCorrect = option === question.answer] and
    [isSelected = selectedAnswer === option]. *)
Definition option_props (isDark showFeedback : bool) (q : Question)
    (selectedAnswer : slot) (option : string) : OptionProps :=
  mkOptionProps isDark (strict_eq selectedAnswer option)
    (bool_decide (option = answer q)) showFeedback.

(** The icons of the rendered options, in order ([question.options.map]). *)
Definition rendered_icons (isDark showFeedback : bool) (q : Question)
    (selectedAnswer : slot) : list (option FeedbackMark) :=
  (fun o => feedback_icon (option_props isDark showFeedback q selectedAnswer o))
    <$> options q.

(** [const progress = ((questionNumber - 1) / totalQuestions) * 100] *)
Definition progress (questionNumber totalQuestions : Z) : float :=
  PrimFloat.mul
    (PrimFloat.div (number_of_Z (questionNumber - 1)) (number_of_Z totalQuestions))
    100%float.

(** The table check for the progress bar: for every total from 1 to
    [bound] and every question number from 1 to the total, the progress
    is at least 0 and below 100, it is 0 on question 1, and it is below
    the progress of the next question. *)
Definition progress_table (bound : nat) : bool :=
  forallb (fun t =>
    PrimFloat.eqb (progress 1 (Z.of_nat t)) 0%float &&
    forallb (fun k =>
      let p := progress (Z.of_nat k) (Z.of_nat t) in
      PrimFloat.leb 0%float p && PrimFloat.ltb p 100%float &&
      ((k =? t)%nat || PrimFloat.ltb p (progress (Z.of_nat k + 1) (Z.of_nat t))))
      (seq 1 t))
    (seq 1 bound).

(** ** [App] without the feedback delay ([src/App.tsx]) *)

(** The version of [App] in [src/App.tsx]: it has no [showFeedback] cell
    and its [handleNext] moves to the next question at once, so nothing
    is ever pending.  The other handlers are those of the version above
    without their write to [showFeedback]. *)
Module AppWithoutFeedback.

Record Session := mkSession {
  currentState : QuizState.t;
  selectedQuiz : option Quiz;
  isDark : bool;
  currentQuestionIndex : Z;
  selectedAnswers : js_array;
  userAnswers : js_array
}.

Definition initialSession : Session :=
  mkSession QuizState.menu None true 0 [] [].

Definition handleQuizSelect (quiz : Quiz) (s : Session) : Session :=
  mkSession QuizState.question (Some quiz) (isDark s) 0
    (array_fill (length (questions quiz)) "") [].

Definition handleAnswerSelect (answer : string) (s : Session) : Session :=
  let newSelectedAnswers :=
    array_set (array_spread (selectedAnswers s)) (currentQuestionIndex s) answer in
  mkSession (currentState s) (selectedQuiz s) (isDark s) (currentQuestionIndex s)
    newSelectedAnswers (userAnswers s).

Definition handleNext (s : Session) : Session :=
  if currentQuestionIndex s <? questions_length_or_0 (selectedQuiz s) - 1 then
    mkSession (currentState s) (selectedQuiz s) (isDark s)
      (currentQuestionIndex s + 1) (selectedAnswers s) (userAnswers s)
  else
    mkSession QuizState.result (selectedQuiz s) (isDark s) (currentQuestionIndex s)
      (selectedAnswers s) (array_spread (selectedAnswers s)).

Definition handlePrevious (s : Session) : Session :=
  if currentQuestionIndex s >? 0 then
    mkSession (currentState s) (selectedQuiz s) (isDark s)
      (currentQuestionIndex s - 1) (selectedAnswers s) (userAnswers s)
  else s.

Definition handleBackToMenu (s : Session) : Session :=
  mkSession QuizState.menu None (isDark s) 0 [] [].

Definition toggleTheme (s : Session) : Session :=
  mkSession (currentState s) (selectedQuiz s) (negb (isDark s))
    (currentQuestionIndex s) (selectedAnswers s) (userAnswers s).

Inductive Event :=
| QuizSelect (quiz : Quiz)
| AnswerSelect (answer : string)
| Next
| Previous
| BackToMenu
| ToggleTheme.

Definition exec (e : Event) (s : Session) : Session :=
  match e with
  | QuizSelect quiz => handleQuizSelect quiz s
  | AnswerSelect a => handleAnswerSelect a s
  | Next => handleNext s
  | Previous => handlePrevious s
  | BackToMenu => handleBackToMenu s
  | ToggleTheme => toggleTheme s
  end.

Definition run (es : list Event) (s : Session) : Session :=
  foldl (fun s e => exec e s) s es.

(** The handlers may be called on any screen; a quiz handed to
    [handleQuizSelect] comes from the catalogue. *)
Definition admissible (data : QuizData) (e : Event) : Prop :=
  match e with
  | QuizSelect quiz => quiz ∈ quizzes data
  | _ => True
  end.

Inductive reachable (data : QuizData) : Session -> Prop :=
| reachable_init : reachable data initialSession
| reachable_step s e :
    reachable data s -> admissible data e -> reachable data (exec e s).

(** On the question screen a quiz is selected and the index names one of
    its questions. *)
Definition question_screen_ok (s : Session) : Prop :=
  currentState s = QuizState.question ->
  exists quiz, selectedQuiz s = Some quiz /\
    0 <= currentQuestionIndex s < Z.of_nat (length (questions quiz)).

(** The draft answers hold one slot per question of the selected quiz. *)
Definition drafts_ok (s : Session) : Prop :=
  forall quiz, selectedQuiz s = Some quiz ->
    length (selectedAnswers s) = length (questions quiz).

(** What carries the two through the handlers. *)
Definition session_inv (s : Session) : Prop :=
  0 <= currentQuestionIndex s /\
  (forall quiz, selectedQuiz s = Some quiz ->
     currentQuestionIndex s < Z.of_nat (length (questions quiz)) /\
     length (selectedAnswers s) = length (questions quiz)) /\
  (currentState s = QuizState.question -> selectedQuiz s <> None).

End AppWithoutFeedback.

(** No quiz of the catalogue is without questions. *)
Definition nonempty_catalogue (data : QuizData) : Prop :=
  forall quiz, quiz ∈ quizzes data -> questions quiz <> [].

(** The cells the two versions of [App] share. *)
Definition forget_feedback (s : Session) : AppWithoutFeedback.Session :=
  AppWithoutFeedback.mkSession (currentState s) (selectedQuiz s) (isDark s)
    (currentQuestionIndex s) (selectedAnswers s) (userAnswers s).

(** Press Next and, when that showed the feedback, wait for it to end. *)
Definition next_and_wait (w : World) : option World :=
  let w1 := handleNext w in
  match timers w1 with
  | [] => Some w1
  | _ :: _ => fireTimer w1
  end.

(** * Properties *)

(** ** The handlers, one by one *)

(** C6: [handleQuizSelect quiz] leaves the session on the question
    screen with [quiz] selected, index 0, one empty-string draft answer
    per question, no final answers and no feedback; the theme and the
    pending timers are as before. *)
Theorem handleQuizSelect_effect (quiz : Quiz) (w : World) :
  let s' := session (handleQuizSelect quiz w) in
  selectedQuiz s' = Some quiz /\
  currentQuestionIndex s' = 0 /\
  selectedAnswers s' = replicate (length (questions quiz)) (Some ""%string) /\
  length (selectedAnswers s') = length (questions quiz) /\
  userAnswers s' = [] /\
  showFeedback s' = false /\
  currentState s' = QuizState.question /\
  isDark s' = isDark (session w) /\
  timers (handleQuizSelect quiz w) = timers w.
Proof.
  cbn. repeat split. apply length_replicate.
Qed.

(** C7: [handleBackToMenu] resets every quiz cell (menu screen, no quiz,
    index 0, both answer lists empty, no feedback) and keeps the theme;
    a [toggleTheme] before it stays flipped. *)
Theorem handleBackToMenu_effect (w : World) :
  session (handleBackToMenu w) =
    mkSession QuizState.menu None (isDark (session w)) 0 [] [] false /\
  isDark (session (handleBackToMenu (toggleTheme w))) = negb (isDark (session w)).
Proof. split; reflexivity. Qed.

(** C8: [handlePrevious] with a positive index decrements the index and
    changes nothing else (the feedback flag and the timers included);
    with index 0 it returns the world as it is.  This holds on every
    screen, the question screen among them. *)
Theorem handlePrevious_effect (w : World) :
  (currentQuestionIndex (session w) > 0 ->
     handlePrevious w =
       mkWorld (mkSession (currentState (session w)) (selectedQuiz (session w))
                  (isDark (session w)) (currentQuestionIndex (session w) - 1)
                  (selectedAnswers (session w)) (userAnswers (session w))
                  (showFeedback (session w)))
               (timers w)) /\
  (currentQuestionIndex (session w) = 0 -> handlePrevious w = w).
Proof.
  unfold handlePrevious. split; intros H.
  - destruct (Z.gtb_spec (currentQuestionIndex (session w)) 0); [reflexivity | lia].
  - rewrite H. reflexivity.
Qed.

Lemma handlePrevious_effect_witness :
  currentState (session onLastQuestion) = QuizState.question /\
  currentQuestionIndex (session (handlePrevious onLastQuestion)) = 0 /\
  handlePrevious (handlePrevious onLastQuestion) = handlePrevious onLastQuestion.
Proof.
  split; [reflexivity |].
  destruct (handlePrevious_effect onLastQuestion) as [Hpos _].
  destruct (handlePrevious_effect (handlePrevious onLastQuestion)) as [_ Hzero].
  split.
  - rewrite Hpos; [reflexivity | cbn; lia].
  - apply Hzero. rewrite Hpos; [reflexivity | cbn; lia].
Defined.

(** C5: on the question screen, at the last question of the selected
    quiz, [handleNext] copies the draft answers to the final answers and
    shows the results at once: no timer is scheduled and the feedback
    flag is left as it was. *)
Theorem handleNext_last_question (w : World) (quiz : Quiz) :
  currentState (session w) = QuizState.question ->
  selectedQuiz (session w) = Some quiz ->
  currentQuestionIndex (session w) = Z.of_nat (length (questions quiz)) - 1 ->
  handleNext w =
    mkWorld (mkSession QuizState.result (Some quiz) (isDark (session w))
               (currentQuestionIndex (session w))
               (selectedAnswers (session w)) (selectedAnswers (session w))
               (showFeedback (session w)))
            (timers w).
Proof.
  intros _ Hquiz Hidx. unfold handleNext.
  rewrite Hquiz. cbn [questions_length_or_0].
  destruct (Z.ltb_spec (currentQuestionIndex (session w))
              (Z.of_nat (length (questions quiz)) - 1)) as [Hlt | _]; [lia |].
  unfold upd, setCurrentState, setUserAnswers, array_spread. cbn.
  rewrite Hquiz. reflexivity.
Qed.

Lemma handleNext_last_question_witness :
  handleNext onLastQuestion =
    mkWorld (mkSession QuizState.result (Some htmlQuiz) true 1
               [Some "B"; Some "A"]%string [Some "B"; Some "A"]%string false) [].
Proof.
  apply (handleNext_last_question onLastQuestion htmlQuiz); reflexivity.
Defined.

(** C10: with no quiz selected the bound of [handleNext] is
    [0 - 1 = -1]; no index from [-1] up (so no 0-based index) is below
    it, and the branch of the last question runs: the draft answers are
    copied to the final answers and the screen becomes the results
    screen, nothing being rejected. *)
Theorem handleNext_without_quiz (w : World) :
  selectedQuiz (session w) = None ->
  -1 <= currentQuestionIndex (session w) ->
  questions_length_or_0 (selectedQuiz (session w)) - 1 = -1 /\
  handleNext w =
    mkWorld (mkSession QuizState.result None (isDark (session w))
               (currentQuestionIndex (session w))
               (selectedAnswers (session w)) (selectedAnswers (session w))
               (showFeedback (session w)))
            (timers w).
Proof.
  intros Hquiz Hidx. unfold handleNext. rewrite Hquiz. cbn [questions_length_or_0].
  split; [reflexivity |].
  destruct (Z.ltb_spec (currentQuestionIndex (session w)) (0 - 1)) as [Hlt | _]; [lia |].
  unfold upd, setCurrentState, setUserAnswers, array_spread. cbn.
  rewrite Hquiz. reflexivity.
Qed.

Lemma handleNext_without_quiz_witness :
  handleNext initialWorld =
    mkWorld (mkSession QuizState.result None true 0 [] [] false) [].
Proof.
  apply (handleNext_without_quiz initialWorld); [reflexivity | cbn; lia].
Defined.

(** ** Timers *)

(** A handler never removes or changes a pending callback: the queue
    after it is the queue before it, with what the handler scheduled
    at the end. *)
Lemma handler_keeps_timers (e : Event) (w w' : World) :
  e <> TimerFires -> exec e w = Some w' ->
  exists added, timers w' = timers w ++ added.
Proof.
  intros He Hexec. destruct e; cbn in Hexec; try congruence;
    injection Hexec as <-.
  - exists []. cbn. by rewrite app_nil_r.
  - exists []. cbn. by rewrite app_nil_r.
  - unfold handleNext.
    destruct (_ <? _); [eexists [_] | exists []]; cbn; [done | by rewrite app_nil_r].
  - unfold handlePrevious. destruct (_ >? _); exists []; cbn; by rewrite app_nil_r.
  - exists []. cbn. by rewrite app_nil_r.
  - exists []. cbn. by rewrite app_nil_r.
Qed.

(** The callback at the head of the queue is the one that fires. *)
Lemma fireTimer_cons (w : World) (captured : Z) (rest : list Z) :
  timers w = captured :: rest ->
  fireTimer w = Some (mkWorld (timeout_callback captured (session w)) rest).
Proof. unfold fireTimer. intros ->. reflexivity. Qed.

(** A callback that waits behind [pre] is still in the queue, unchanged,
    after any events in which at most the callbacks of [pre] fire. *)
Lemma run_keeps_pending (es : list Event) :
  forall (w : World) (pre post : list Z) (captured : Z),
    timers w = pre ++ captured :: post ->
    (count_fires es <= length pre)%nat ->
    exists w' later,
      run es w = Some w' /\
      timers w' = drop (count_fires es) pre ++ captured :: post ++ later.
Proof.
  induction es as [| e es IH]; intros w pre post captured Hq Hcount.
  - exists w, []. cbn. rewrite app_nil_r. done.
  - destruct (decide (e = TimerFires)) as [-> | He].
    + cbn in Hcount. destruct pre as [| p pre]; [cbn in Hcount; lia |].
      cbn [run exec]. rewrite (fireTimer_cons w p (pre ++ captured :: post) Hq).
      destruct (IH (mkWorld (timeout_callback p (session w)) (pre ++ captured :: post))
                  pre post captured eq_refl) as (w' & later & Hrun & Ht).
      { cbn in Hcount. lia. }
      exists w', later. split; [exact Hrun | exact Ht].
    + destruct (exec e w) as [w1 |] eqn:Hexec; [| destruct e; cbn in Hexec; congruence].
      destruct (handler_keeps_timers e w w1 He Hexec) as [added Hadd].
      assert (Hc : count_fires (e :: es) = count_fires es) by (destruct e; done).
      rewrite Hc in *.
      destruct (IH w1 pre (post ++ added) captured) as (w' & later & Hrun & Ht).
      { rewrite Hadd, Hq. by rewrite <- !app_assoc. }
      { exact Hcount. }
      exists w', (added ++ later). split.
      * cbn [run]. rewrite Hexec. exact Hrun.
      * rewrite Ht. by rewrite <- !app_assoc.
Qed.

(** C2: [handleNext] on a question that is not the last one schedules a
    callback that captured the current index.  Whatever events follow
    before that callback is due (the callbacks [timers w] that were
    pending before it fire among them, the handlers are any:
    [handleBackToMenu], [handleQuizSelect] and the others), the callback
    is then first in the queue, and when it fires it sets the index to
    the captured index plus one and the feedback flag to false in the
    session those events produced, whose other cells it leaves alone. *)
Theorem pending_callback_survives (w : World) (quiz : Quiz) (es : list Event) :
  selectedQuiz (session w) = Some quiz ->
  currentQuestionIndex (session w) < Z.of_nat (length (questions quiz)) - 1 ->
  count_fires es = length (timers w) ->
  exists w1 later,
    run (Next :: es) w = Some w1 /\
    timers w1 = currentQuestionIndex (session w) :: later /\
    fireTimer w1 =
      Some (mkWorld
              (mkSession (currentState (session w1)) (selectedQuiz (session w1))
                 (isDark (session w1)) (currentQuestionIndex (session w) + 1)
                 (selectedAnswers (session w1)) (userAnswers (session w1)) false)
              later).
Proof.
  intros Hquiz Hidx Hcount.
  assert (Hnext : timers (handleNext w) =
                  timers w ++ currentQuestionIndex (session w) :: []).
  { unfold handleNext. rewrite Hquiz. cbn [questions_length_or_0].
    destruct (Z.ltb_spec (currentQuestionIndex (session w))
                (Z.of_nat (length (questions quiz)) - 1)); [reflexivity | lia]. }
  destruct (run_keeps_pending es (handleNext w) (timers w) []
              (currentQuestionIndex (session w)) Hnext)
    as (w1 & later & Hrun & Ht); [lia |].
  rewrite Hcount, drop_all in Ht. cbn in Ht.
  exists w1, later. split; [exact Hrun |]. split; [exact Ht |].
  rewrite (fireTimer_cons w1 _ _ Ht). reflexivity.
Qed.

Lemma pending_callback_survives_witness :
  exists w1 later,
    run [Next; BackToMenu; QuizSelect cssQuiz]
        (handleAnswerSelect "B" (handleQuizSelect htmlQuiz initialWorld)) = Some w1 /\
    timers w1 = 0 :: later /\
    fireTimer w1 =
      Some (mkWorld
              (mkSession (currentState (session w1)) (selectedQuiz (session w1))
                 (isDark (session w1)) (0 + 1)
                 (selectedAnswers (session w1)) (userAnswers (session w1)) false)
              later).
Proof.
  apply (pending_callback_survives
           (handleAnswerSelect "B" (handleQuizSelect htmlQuiz initialWorld))
           htmlQuiz [BackToMenu; QuizSelect cssQuiz]).
  - reflexivity.
  - cbn. lia.
  - reflexivity.
Defined.

(** ** The question-screen invariant *)

Lemma run_reachable (data : QuizData) (es : list Event) :
  forall w w', reachable data w -> Forall (admissible data) es ->
    run es w = Some w' -> reachable data w'.
Proof.
  induction es as [| e es IH]; intros w w' Hw Hes Hrun.
  - cbn in Hrun. by injection Hrun as <-.
  - cbn in Hrun. destruct (exec e w) as [w1 |] eqn:Hexec; [| done].
    inversion Hes as [| ? ? He Hes']; subst.
    eapply IH; [| exact Hes' | exact Hrun].
    eapply reachable_step; eauto.
Qed.

Lemma run_ui_run (data : QuizData) (es : list Event) :
  forall w w', run_ui data es w = Some w' -> run es w = Some w'.
Proof.
  induction es as [| e es IH]; intros w w' H; cbn in *; [done |].
  destruct (clickable data w e); [| done].
  destruct (exec e w); [by apply IH | done].
Qed.

(** No reachable index is negative, and no captured index either. *)
Lemma reachable_index_nonneg (data : QuizData) (w : World) :
  reachable data w ->
  0 <= currentQuestionIndex (session w) /\ Forall (fun c => 0 <= c) (timers w).
Proof.
  induction 1 as [| w e w' _ [IHi IHt] _ Hexec].
  - split; [cbn; lia | constructor].
  - destruct e; cbn in Hexec; try (injection Hexec as <-).
    + split; [cbn; lia | exact IHt].
    + split; [exact IHi | exact IHt].
    + unfold handleNext. destruct (_ <? _); cbn; split; auto.
      apply Forall_app. split; [exact IHt | by constructor].
    + unfold handlePrevious.
      destruct (Z.gtb_spec (currentQuestionIndex (session w)) 0); cbn; split; auto; lia.
    + split; [cbn; lia | exact IHt].
    + split; [exact IHi | exact IHt].
    + unfold fireTimer in Hexec. destruct (timers w) as [| c rest] eqn:Ht; [done |].
      injection Hexec as <-. inversion IHt; subst. cbn. split; [lia | done].
Qed.

(** Closes the conjuncts of [uniform_inv] once the handler is unfolded. *)
Ltac close_inv := repeat split; cbn; done || lia.

Section UniformCatalogue.
Variable n : nat.
Variable data : QuizData.
Hypothesis Huniform : uniform_catalogue n data.
Hypothesis Hpos : (0 < n)%nat.

Lemma uniform_inv_init : uniform_inv n initialWorld.
Proof. close_inv. Qed.

Lemma uniform_inv_step (w w' : World) (e : Event) :
  admissible data e -> exec e w = Some w' ->
  uniform_inv n w -> uniform_inv n w'.
Proof.
  intros Hadm Hexec (Hidx & Hsel & Hscr & Htim).
  destruct e; cbn in Hexec; try (injection Hexec as <-).
  - cbn in Hadm. repeat split; cbn; try lia; try done.
    intros q [= <-]. by apply Huniform.
  - close_inv.
  - unfold handleNext.
    destruct (Z.ltb_spec (currentQuestionIndex (session w))
                (questions_length_or_0 (selectedQuiz (session w)) - 1)) as [Hlt | Hge].
    + repeat split; cbn; try done; try lia.
      apply Forall_app. split; [exact Htim |].
      constructor; [| constructor]. split; [lia |].
      destruct (selectedQuiz (session w)) as [q |] eqn:Hq; cbn in Hlt; [| lia].
      rewrite (Hsel q eq_refl) in Hlt. lia.
    + close_inv.
  - unfold handlePrevious.
    destruct (Z.gtb_spec (currentQuestionIndex (session w)) 0); close_inv.
  - close_inv.
  - close_inv.
  - unfold fireTimer in Hexec. destruct (timers w) as [| c rest] eqn:Ht; [done |].
    injection Hexec as <-. inversion Htim as [| ? ? [Hc0 Hc1] Hrest]; subst.
    close_inv.
Qed.

Lemma reachable_uniform_inv (w : World) : reachable data w -> uniform_inv n w.
Proof.
  induction 1 as [| w e w' _ IH Hadm Hexec].
  - apply uniform_inv_init.
  - by apply (uniform_inv_step w w' e).
Qed.

(** When every quiz of the catalogue has the same positive number of
    questions, every reachable world satisfies the question-screen
    invariant: a callback that outlives its quiz run then writes an
    index that is in range for any quiz that may be selected. *)
Lemma question_screen_ok_uniform (w : World) :
  reachable data w -> question_screen_ok (session w).
Proof.
  intros Hreach.
  destruct (reachable_uniform_inv w Hreach) as (Hidx & Hsel & Hscr & _).
  intros Hq. specialize (Hscr Hq).
  destruct (selectedQuiz (session w)) as [q |] eqn:Hsq; [| done].
  exists q. split; [reflexivity |]. rewrite (Hsel q eq_refl). exact Hidx.
Qed.

End UniformCatalogue.

(** C1: the invariant [question_screen_ok] does not hold in every
    reachable world.  With a catalogue of a two-question quiz and a
    one-question quiz, [interrupted_run] uses only controls the screens
    offer and ends on the question screen of the one-question quiz with
    index 1: the callback [handleNext] scheduled in the first run fired
    after the second quiz was selected. *)
Theorem question_screen_invariant_broken :
  let bad := mkWorld (mkSession QuizState.question (Some cssQuiz) true 1
                        [Some ""%string] [] false) [] in
  run_ui twoQuizzes interrupted_run initialWorld = Some bad /\
  reachable twoQuizzes bad /\
  currentState (session bad) = QuizState.question /\
  length (questions cssQuiz) = 1%nat /\
  currentQuestionIndex (session bad) = 1 /\
  index_in_range (session bad) = false /\
  ~ question_screen_ok (session bad).
Proof.
  intros bad.
  assert (Hrun : run_ui twoQuizzes interrupted_run initialWorld = Some bad)
    by (vm_compute; reflexivity).
  split; [exact Hrun |]. split.
  - apply (run_reachable twoQuizzes interrupted_run initialWorld);
      [constructor | | by apply (run_ui_run twoQuizzes)].
    unfold interrupted_run, twoQuizzes.
    repeat (constructor; cbn; try done); set_solver.
  - repeat split; try reflexivity.
    intros Hok. destruct (Hok eq_refl) as (q & [= <-] & _ & Hlt).
    cbn in Hlt. lia.
Qed.

(** ** Scoring *)

Lemma array_get_nat (a : js_array) (i : nat) :
  array_get a (Z.of_nat i) = mjoin (a !! i).
Proof.
  unfold array_get.
  destruct (Z.ltb_spec (Z.of_nat i) 0); [lia |]. by rewrite Nat2Z.id.
Qed.

Lemma strict_eq_true (x : option slot) (s : string) :
  strict_eq (mjoin x) s = true <-> x = Some (Some s).
Proof.
  destruct x as [[t |] |]; cbn; try (split; intros H; discriminate H).
  rewrite bool_decide_eq_true. split; [intros -> | intros [= ->]]; reflexivity.
Qed.

(** Strict equality of strings is case-sensitive and trims nothing. *)
Example strict_eq_exact :
  strict_eq (Some "B"%string) "B" = true /\
  strict_eq (Some "b"%string) "B" = false /\
  strict_eq (Some " B"%string) "B" = false /\
  strict_eq None "B" = false.
Proof. repeat split. Qed.

Lemma filter_ext_elem {A} (P Q : A -> Prop) `{!forall x, Decision (P x)}
    `{!forall x, Decision (Q x)} (l : list A) :
  (forall x, x ∈ l -> (P x <-> Q x)) -> filter P l = filter Q l.
Proof.
  induction l as [| a l IH]; intros Hext; [done |].
  rewrite !filter_cons.
  assert (Ha : P a <-> Q a) by (apply Hext; left).
  assert (Hl : filter P l = filter Q l).
  { apply IH. intros x Hx. apply Hext. by right. }
  rewrite Hl. destruct (decide (P a)), (decide (Q a)); tauto || done.
Qed.

(** The loop of [calculateScore] adds to [correct] the number of
    positions from [index] on at which the answer is the right one. *)
Lemma forEach_correct_count (qs : list Question) :
  forall (index : nat) (userAnswers : js_array) (correct : nat),
    forEach_correct qs index userAnswers correct =
      (correct +
       length (filter (fun i => userAnswers !! i = Some (answer <$> qs !! (i - index)%nat))
                      (seq index (length qs))))%nat.
Proof.
  induction qs as [| q qs IH]; intros index ua correct; cbn [forEach_correct].
  - cbn. lia.
  - rewrite IH. cbn [length seq]. rewrite filter_cons.
    rewrite array_get_nat.
    rewrite (filter_ext_elem
               (fun i => ua !! i = Some (answer <$> (q :: qs) !! (i - index)%nat))
               (fun i => ua !! i = Some (answer <$> qs !! (i - S index)%nat))
               (seq (S index) (length qs))).
    2:{ intros i Hi. apply elem_of_seq in Hi.
        replace (i - index)%nat with (S (i - S index)) by lia. done. }
    rewrite Nat.sub_diag. cbn [lookup list_lookup fmap option_fmap option_map].
    destruct (strict_eq (mjoin (ua !! index)) (answer q)) eqn:Heq.
    + apply strict_eq_true in Heq.
      destruct (decide (ua !! index = Some (Some (answer q)))); [cbn; lia | done].
    + destruct (decide (ua !! index = Some (Some (answer q)))) as [Hd | _]; [| done].
      apply strict_eq_true in Hd. congruence.
Qed.

Lemma forEach_correct_nil (qs : list Question) :
  forall index correct, forEach_correct qs index [] correct = correct.
Proof.
  induction qs as [| q qs IH]; intros index correct; cbn [forEach_correct]; [done |].
  rewrite IH. unfold array_get. destruct (_ <? _); done.
Qed.

Lemma calculateScore_count (quiz : Quiz) (answers : js_array) :
  calculateScore quiz answers = count_correct quiz answers.
Proof.
  assert (H : calculateScore quiz answers =
              forEach_correct (questions quiz) 0 answers 0).
  { unfold calculateScore. destruct answers as [| a answers]; cbn [length Nat.eqb].
    - by rewrite forEach_correct_nil.
    - reflexivity. }
  rewrite H, forEach_correct_count. unfold count_correct, matching_indices. cbn.
  f_equal. apply filter_ext_elem. intros i _. by rewrite Nat.sub_0_r.
Qed.

Lemma count_correct_le (quiz : Quiz) (answers : js_array) :
  (count_correct quiz answers <= length (questions quiz))%nat.
Proof.
  unfold count_correct, matching_indices.
  etransitivity; [apply length_filter |]. by rewrite length_seq.
Qed.

(** Up to 39 questions the double arithmetic of the results screen
    yields the exact percentage rounded half up. *)
Lemma percentage_of_exact (c t : nat) :
  (1 <= t <= 39)%nat -> (c <= t)%nat ->
  percentage_of c t = number_of_Z (exact_percentage c t).
Proof.
  intros Ht Hc.
  assert (Htable : percentages_agree_upto 39 = true) by (vm_compute; reflexivity).
  unfold percentages_agree_upto in Htable.
  rewrite forallb_forall in Htable.
  assert (Hrow := Htable t). rewrite forallb_forall in Hrow.
  apply FloatAxioms.Leibniz.eqb_spec. apply Hrow; apply in_seq; lia.
Qed.

(** C3 (amended): [calculateScore] returns the number of indices in
    range of the questions at which the answer list holds exactly the
    answer of the question (strings compared character by character);
    the percentage is [Math.round] of the double [(score / total) * 100],
    which for a quiz of 1 to 39 questions is the exact value of
    [correct / total * 100] rounded half up. *)
Theorem scoring_counts_exact_matches (quiz : Quiz) (answers : js_array) :
  calculateScore quiz answers = count_correct quiz answers /\
  percentage quiz answers =
    Math_round (PrimFloat.mul
                  (PrimFloat.div (number_of_nat (count_correct quiz answers))
                                 (number_of_nat (length (questions quiz))))
                  100%float) /\
  ((1 <= length (questions quiz) <= 39)%nat ->
   percentage quiz answers =
     number_of_Z (exact_percentage (count_correct quiz answers)
                                   (length (questions quiz)))).
Proof.
  split; [apply calculateScore_count |]. split.
  - unfold percentage, percentage_of. by rewrite calculateScore_count.
  - intros Hlen. unfold percentage. rewrite calculateScore_count.
    apply percentage_of_exact; [exact Hlen | apply count_correct_le].
Qed.

Lemma scoring_counts_exact_matches_witness :
  calculateScore htmlQuiz [Some "B"; Some "A"]%string = 1%nat /\
  percentage htmlQuiz [Some "B"; Some "A"]%string = 50%float.
Proof.
  destruct (scoring_counts_exact_matches htmlQuiz [Some "B"; Some "A"]%string)
    as (Hscore & _ & Hpct).
  split.
  - rewrite Hscore. reflexivity.
  - rewrite Hpct; [reflexivity | cbn; lia].
Defined.

(** C3, as stated, fails at a quiz of 40 questions with 23 right
    answers: the score is 23, the double [(23 / 40) * 100] is
    57.49999999999999 and the percentage shown is 57, while 57.5 rounds
    half up to 58. *)
Lemma scoring_as_specified_fails :
  calculateScore fortyQuiz fortyAnswers = 23%nat /\
  length (questions fortyQuiz) = 40%nat /\
  percentage fortyQuiz fortyAnswers = 57%float /\
  exact_percentage 23 40 = 58 /\
  ~ scoring_as_specified fortyQuiz fortyAnswers.
Proof.
  repeat split; try (vm_compute; reflexivity).
  intros [_ H].
  apply (f_equal (fun x => PrimFloat.eqb x 57%float)) in H.
  vm_compute in H. discriminate.
Qed.

(** C4 (amended): for a quiz without questions the results screen
    divides 0 by 0 and the percentage is NaN; for a quiz of 1 to 39
    questions the percentage is the exact value of
    [correct / total * 100] rounded half up, a whole number from 0 to
    100. *)
Theorem percentage_by_total (quiz : Quiz) (answers : js_array) :
  (questions quiz = [] -> percentage quiz answers = nan) /\
  ((1 <= length (questions quiz) <= 39)%nat ->
   exists k : Z,
     k = round_half_up (100 * Z.of_nat (calculateScore quiz answers))
                       (Z.of_nat (length (questions quiz))) /\
     0 <= k <= 100 /\
     percentage quiz answers = number_of_Z k).
Proof.
  split.
  - intros Hq. unfold percentage. rewrite calculateScore_count.
    unfold count_correct, matching_indices. rewrite Hq. reflexivity.
  - intros Hlen. eexists. split; [reflexivity |].
    rewrite calculateScore_count.
    pose proof (count_correct_le quiz answers) as Hle.
    split.
    + unfold round_half_up. split.
      * apply Z.div_pos; lia.
      * apply Z.lt_succ_r. apply Z.div_lt_upper_bound; lia.
    + unfold percentage. rewrite calculateScore_count.
      by apply percentage_of_exact.
Qed.

Lemma percentage_by_total_witness :
  percentage emptyQuiz [] = nan /\
  percentage htmlQuiz [Some "B"; Some "B"]%string = 100%float.
Proof.
  split.
  - apply (percentage_by_total emptyQuiz []). reflexivity.
  - destruct (percentage_by_total htmlQuiz [Some "B"; Some "B"]%string) as [_ H].
    destruct H as (k & -> & _ & ->); [cbn; lia | reflexivity].
Defined.

(** C4, as stated, fails at a quiz without questions: the percentage is
    NaN, which is not 0.  Its second half fails at 23 right answers out
    of 40: the percentage is 57, the exact 57.5 rounded half up is 58. *)
Lemma percentage_empty_quiz_is_nan :
  (length (questions emptyQuiz) = 0%nat /\
   percentage emptyQuiz [] = nan /\
   PrimFloat.eqb (percentage emptyQuiz []) 0%float = false /\
   percentage emptyQuiz [] <> 0%float) /\
  (questions fortyQuiz <> [] /\
   percentage fortyQuiz fortyAnswers <>
     number_of_Z (round_half_up (100 * Z.of_nat (calculateScore fortyQuiz fortyAnswers))
                                (Z.of_nat (length (questions fortyQuiz))))).
Proof.
  split.
  - repeat split; try (vm_compute; reflexivity).
    intros H. apply (f_equal PrimFloat.is_nan) in H. vm_compute in H. discriminate.
  - split; [discriminate |].
    intros H. apply (f_equal (fun x => PrimFloat.eqb x 57%float)) in H.
    vm_compute in H. discriminate.
Qed.

(** The scenario of the specification: two questions, "B" then "A"
    answered, the feedback timer fired in between; one of two right,
    50 percent. *)
Example end_to_end_scenario :
  exists w,
    run_ui twoQuizzes
      [QuizSelect htmlQuiz; AnswerSelect "B"; Next; TimerFires;
       AnswerSelect "A"; Next] initialWorld = Some w /\
    currentState (session w) = QuizState.result /\
    userAnswers (session w) = [Some "B"; Some "A"]%string /\
    calculateScore htmlQuiz (userAnswers (session w)) = 1%nat /\
    percentage htmlQuiz (userAnswers (session w)) = 50%float.
Proof. eexists. split; [vm_compute; reflexivity |]. repeat split. Qed.

(** ** Reading the persisted state *)

(** C9: the initial read of [useLocalStorage] always completes with a
    value, never by throwing; the value is the caller's default when the
    key is absent, when the stored text does not parse, and when the
    storage itself cannot be read. *)
Theorem useLocalStorage_init_falls_back {T : Type}
    (JSON_parse : string -> completion T)
    (ls : LocalStorage) (key : string) (initialValue : T) :
  (exists v, useLocalStorage_init JSON_parse ls key initialValue = Normal v) /\
  (forall items, ls = Available items -> items !! key = None ->
     useLocalStorage_init JSON_parse ls key initialValue = Normal initialValue) /\
  (forall items text error,
     ls = Available items -> items !! key = Some text ->
     JSON_parse text = Throw error ->
     useLocalStorage_init JSON_parse ls key initialValue = Normal initialValue) /\
  (forall error, ls = Denied error ->
     useLocalStorage_init JSON_parse ls key initialValue = Normal initialValue).
Proof.
  unfold useLocalStorage_init. repeat split.
  - destruct ls as [items | e]; cbn; [| by eexists].
    destruct (items !! key) as [text |]; cbn; [| by eexists].
    destruct (negb _); [| by eexists].
    destruct (JSON_parse text); cbn; by eexists.
  - intros items -> Hnone. cbn. rewrite Hnone. reflexivity.
  - intros items text error -> Hsome Hparse. cbn. rewrite Hsome. cbn.
    destruct (negb _); [| reflexivity]. rewrite Hparse. reflexivity.
  - intros error ->. reflexivity.
Qed.

Lemma useLocalStorage_init_falls_back_witness :
  useLocalStorage_init JSON_parse_boolean (Available ∅) "quiz-theme" true = Normal true /\
  useLocalStorage_init JSON_parse_boolean
    (Available {["quiz-theme"%string := "{oops"%string]}) "quiz-theme" true = Normal true /\
  useLocalStorage_init JSON_parse_boolean (Denied "SecurityError") "quiz-theme" true
    = Normal true.
Proof.
  destruct (useLocalStorage_init_falls_back JSON_parse_boolean
              (Available ∅) "quiz-theme" true) as (_ & Habsent & _ & _).
  destruct (useLocalStorage_init_falls_back JSON_parse_boolean
              (Available {["quiz-theme"%string := "{oops"%string]}) "quiz-theme" true)
    as (_ & _ & Hparse & _).
  destruct (useLocalStorage_init_falls_back JSON_parse_boolean
              (Denied "SecurityError") "quiz-theme" true) as (_ & _ & _ & Hdenied).
  split; [| split].
  - apply (Habsent ∅); reflexivity.
  - apply (Hparse {["quiz-theme"%string := "{oops"%string]} "{oops"%string
                  "SyntaxError"%string); [reflexivity | vm_compute; reflexivity | reflexivity].
  - apply (Hdenied "SecurityError"%string). reflexivity.
Defined.

(** * Further properties of the handlers *)

(** ** Selecting an answer *)

(** Reading a slot after [a[i] = v], for an index that names an
    element. *)
Lemma array_get_set (a : js_array) (i j : Z) (v : string) :
  0 <= i ->
  array_get (array_set a i v) j = if j =? i then Some v else array_get a j.
Proof.
  intros Hi. unfold array_get, array_set, js_array, slot in *.
  destruct (Z.ltb_spec i 0) as [| _]; [lia |].
  destruct (Z.eqb_spec j i) as [-> | Hne].
  - destruct (Z.ltb_spec i 0) as [| _]; [lia |].
    destruct (Nat.ltb_spec (Z.to_nat i) (length a)) as [Hlt | Hge].
    + by rewrite list_lookup_insert_eq.
    + rewrite lookup_app_r by lia.
      rewrite lookup_app_r by (rewrite length_replicate; lia).
      rewrite length_replicate.
      replace (Z.to_nat i - length a - (Z.to_nat i - length a))%nat with 0%nat by lia.
      reflexivity.
  - destruct (Z.ltb_spec j 0) as [| Hj]; [reflexivity |].
    assert (Hn : Z.to_nat i <> Z.to_nat j) by lia.
    destruct (Nat.ltb_spec (Z.to_nat i) (length a)) as [Hlt | Hge].
    + by rewrite list_lookup_insert_ne.
    + destruct (decide (Z.to_nat j < length a)%nat) as [Hjl | Hjl].
      * by rewrite lookup_app_l.
      * rewrite (lookup_ge_None_2 a) by lia.
        rewrite lookup_app_r by lia.
        destruct (decide (Z.to_nat j < Z.to_nat i)%nat) as [Hji | Hji].
        -- rewrite lookup_app_l by (rewrite length_replicate; lia).
           rewrite lookup_replicate_2 by lia. reflexivity.
        -- rewrite lookup_app_r by (rewrite length_replicate; lia).
           rewrite length_replicate.
           rewrite lookup_ge_None_2 by (cbn; lia). reflexivity.
Qed.

Lemma array_set_length (a : js_array) (i : Z) (v : string) :
  0 <= i ->
  length (array_set a i v) = Nat.max (length a) (S (Z.to_nat i)).
Proof.
  intros Hi. unfold array_set, js_array, slot in *.
  destruct (Z.ltb_spec i 0) as [| _]; [lia |].
  destruct (Nat.ltb_spec (Z.to_nat i) (length a)) as [Hlt | Hge].
  - rewrite length_insert. lia.
  - rewrite !length_app, length_replicate. cbn. lia.
Qed.

(** Writing the same slot twice keeps the second value only. *)
Lemma array_set_set (a : js_array) (i : Z) (x y : string) :
  array_set (array_set a i x) i y = array_set a i y.
Proof.
  unfold array_set, js_array, slot in *.
  destruct (Z.ltb_spec i 0) as [| Hi]; [reflexivity |].
  destruct (Nat.ltb_spec (Z.to_nat i) (length a)) as [Hlt | Hge].
  - rewrite length_insert.
    destruct (Nat.ltb_spec (Z.to_nat i) (length a)); [| lia].
    apply list_insert_insert_eq.
  - rewrite !length_app, length_replicate. cbn [length].
    destruct (Nat.ltb_spec (Z.to_nat i)
                (length a + (Z.to_nat i - length a + 1))) as [_ |]; [| lia].
    rewrite insert_app_r_alt by lia.
    rewrite insert_app_r_alt by (rewrite length_replicate; lia).
    rewrite length_replicate.
    replace (Z.to_nat i - length a - (Z.to_nat i - length a))%nat with 0%nat by lia.
    reflexivity.
Qed.



(** X2: of two answers selected in a row for the same question the
    second one is the only one kept; in particular selecting the same
    answer twice is the same as selecting it once. *)
Theorem handleAnswerSelect_last_wins (a b : string) (w : World) :
  handleAnswerSelect b (handleAnswerSelect a w) = handleAnswerSelect b w /\
  handleAnswerSelect a (handleAnswerSelect a w) = handleAnswerSelect a w.
Proof.
  assert (H : forall x y, handleAnswerSelect y (handleAnswerSelect x w)
                          = handleAnswerSelect y w).
  { intros x y. unfold handleAnswerSelect, upd, setSelectedAnswers, array_spread. cbn.
    by rewrite array_set_set. }
  split; apply H.
Qed.



(** ** Whole runs *)

(** X4: the theme follows the toggles and nothing else: after any
    sequence of events the theme is the initial one, flipped when the
    sequence holds an odd number of [toggleTheme]. *)
Theorem theme_follows_toggles (es : list Event) :
  forall w w', run es w = Some w' ->
    isDark (session w') = xorb (isDark (session w)) (Nat.odd (count_toggles es)).
Proof.
  induction es as [| e es IH]; intros w w' Hrun.
  - cbn in Hrun. injection Hrun as <-. cbn. by rewrite xorb_false_r.
  - cbn [run] in Hrun. destruct (exec e w) as [w1 |] eqn:Hexec; [| done].
    specialize (IH w1 w' Hrun). rewrite IH.
    destruct e; cbn in Hexec; try (injection Hexec as <-); cbn [count_toggles].
    + reflexivity.
    + reflexivity.
    + unfold handleNext. by destruct (_ <? _).
    + unfold handlePrevious. by destruct (_ >? _).
    + reflexivity.
    + rewrite Nat.odd_succ, <- Nat.negb_odd. cbn.
      by destruct (isDark (session w)), (Nat.odd (count_toggles es)).
    + unfold fireTimer in Hexec. destruct (timers w); [done |].
      by injection Hexec as <-.
Qed.

Lemma theme_follows_toggles_witness :
  exists w',
    run [ToggleTheme; QuizSelect htmlQuiz; BackToMenu; ToggleTheme; ToggleTheme]
        initialWorld = Some w' /\
    isDark (session w') = false.
Proof.
  eexists. split; [reflexivity |].
  exact (theme_follows_toggles
           [ToggleTheme; QuizSelect htmlQuiz; BackToMenu; ToggleTheme; ToggleTheme]
           initialWorld _ eq_refl).
Defined.

(** X5: in every reachable world, for every catalogue: the screen is
    never [completed]; on the question screen a quiz is selected; on the
    menu no quiz is selected and there are no final answers; the index
    is not negative. *)
Theorem reachable_screens (data : QuizData) (w : World) :
  reachable data w ->
  currentState (session w) <> QuizState.completed /\
  (currentState (session w) = QuizState.question -> selectedQuiz (session w) <> None) /\
  (currentState (session w) = QuizState.menu ->
     selectedQuiz (session w) = None /\ userAnswers (session w) = []) /\
  0 <= currentQuestionIndex (session w).
Proof.
  induction 1 as [| w e w' Hreach (Hc & Hq & Hm & Hi) _ Hexec].
  - cbn. repeat split; done.
  - destruct e; cbn in Hexec; try (injection Hexec as <-).
    + cbn. repeat split; done.
    + cbn. repeat split; tauto.
    + unfold handleNext. destruct (_ <? _); cbn; repeat split; done || tauto.
    + unfold handlePrevious.
      destruct (Z.gtb_spec (currentQuestionIndex (session w)) 0); cbn;
        repeat split; try tauto; lia.
    + cbn. repeat split; done.
    + cbn. repeat split; tauto.
    + unfold fireTimer in Hexec. destruct (timers w) as [| c rest] eqn:Ht; [done |].
      injection Hexec as <-. cbn.
      destruct (reachable_index_nonneg data w Hreach) as [_ Hall].
      rewrite Ht in Hall. inversion Hall; subst.
      repeat split; try tauto. lia.
Qed.

Lemma reachable_screens_witness :
  let w := handleQuizSelect htmlQuiz initialWorld in
  currentState (session w) <> QuizState.completed /\
  (currentState (session w) = QuizState.question -> selectedQuiz (session w) <> None) /\
  (currentState (session w) = QuizState.menu ->
     selectedQuiz (session w) = None /\ userAnswers (session w) = []) /\
  0 <= currentQuestionIndex (session w).
Proof.
  apply (reachable_screens twoQuizzes).
  apply (reachable_step twoQuizzes initialWorld (QuizSelect htmlQuiz)).
  - constructor.
  - cbn. set_solver.
  - reflexivity.
Defined.

(** X6: from a question of the selected quiz with no callback pending,
    pressing Next and letting the feedback end once per remaining
    question, then pressing Next on the last question, ends on the
    results screen with the final answers equal to the draft answers,
    which the run did not change. *)
Theorem advance_run_reaches_result (k : nat) :
  forall (w : World) (quiz : Quiz),
    selectedQuiz (session w) = Some quiz ->
    timers w = [] ->
    currentQuestionIndex (session w) + Z.of_nat k
      = Z.of_nat (length (questions quiz)) - 1 ->
    exists w',
      run (advance_run k) w = Some w' /\
      currentState (session w') = QuizState.result /\
      selectedQuiz (session w') = Some quiz /\
      currentQuestionIndex (session w') = Z.of_nat (length (questions quiz)) - 1 /\
      userAnswers (session w') = selectedAnswers (session w) /\
      selectedAnswers (session w') = selectedAnswers (session w) /\
      timers w' = [].
Proof.
  induction k as [| k IH]; intros w quiz Hquiz Htim Hidx.
  - exists (handleNext w). split; [reflexivity |].
    unfold handleNext. rewrite Hquiz. cbn [questions_length_or_0].
    destruct (Z.ltb_spec (currentQuestionIndex (session w))
                (Z.of_nat (length (questions quiz)) - 1)); [lia |].
    cbn. repeat split; try done. lia.
  - cbn [advance_run run exec].
    assert (Hnext : handleNext w =
              setTimeout (currentQuestionIndex (session w))
                (upd (setShowFeedback true) w)).
    { unfold handleNext. rewrite Hquiz. cbn [questions_length_or_0].
      destruct (Z.ltb_spec (currentQuestionIndex (session w))
                  (Z.of_nat (length (questions quiz)) - 1)); [reflexivity | lia]. }
    rewrite Hnext. unfold fireTimer. cbn [timers setTimeout upd]. rewrite Htim.
    cbn [app].
    destruct (IH (mkWorld (timeout_callback (currentQuestionIndex (session w))
                             (session (upd (setShowFeedback true) w))) []) quiz)
      as (w' & Hrun & Hres); [exact Hquiz | reflexivity | cbn; lia |].
    exists w'. split; [exact Hrun | exact Hres].
Qed.

Lemma advance_run_reaches_result_witness :
  exists w',
    run [Next; TimerFires; Next] (handleQuizSelect htmlQuiz initialWorld) = Some w' /\
    currentState (session w') = QuizState.result /\
    userAnswers (session w') = [Some ""; Some ""]%string.
Proof.
  destruct (advance_run_reaches_result 1 (handleQuizSelect htmlQuiz initialWorld) htmlQuiz)
    as (w' & Hrun & Hres & _ & _ & Hua & _); [reflexivity | reflexivity | reflexivity |].
  exists w'. split; [exact Hrun |]. split; [exact Hres | exact Hua].
Defined.

(** X7: pressing Next twice before the feedback ends schedules two
    callbacks that captured the same index: when both have fired the
    index has moved by one question, not by two. *)
Theorem double_next_advances_once (w : World) (quiz : Quiz) :
  selectedQuiz (session w) = Some quiz ->
  currentQuestionIndex (session w) < Z.of_nat (length (questions quiz)) - 1 ->
  timers w = [] ->
  run [Next; Next; TimerFires; TimerFires] w =
    Some (mkWorld
            (mkSession (currentState (session w)) (Some quiz) (isDark (session w))
               (currentQuestionIndex (session w) + 1)
               (selectedAnswers (session w)) (userAnswers (session w)) false)
            []).
Proof.
  intros Hquiz Hidx Htim.
  assert (Hnext : forall v, selectedQuiz (session v) = Some quiz ->
            currentQuestionIndex (session v) = currentQuestionIndex (session w) ->
            handleNext v = setTimeout (currentQuestionIndex (session w))
                             (upd (setShowFeedback true) v)).
  { intros v Hq Hi. unfold handleNext. rewrite Hq, Hi. cbn [questions_length_or_0].
    destruct (Z.ltb_spec (currentQuestionIndex (session w))
                (Z.of_nat (length (questions quiz)) - 1)); [reflexivity | lia]. }
  cbn [run exec]. rewrite (Hnext w Hquiz eq_refl).
  rewrite (Hnext (setTimeout (currentQuestionIndex (session w))
                     (upd (setShowFeedback true) w)) Hquiz eq_refl).
  unfold fireTimer. cbn. rewrite Htim. cbn.
  unfold timeout_callback, setShowFeedback, setCurrentQuestionIndex. cbn.
  rewrite Hquiz. reflexivity.
Qed.

Lemma double_next_advances_once_witness :
  run [Next; Next; TimerFires; TimerFires] (handleQuizSelect htmlQuiz initialWorld) =
    Some (mkWorld (mkSession QuizState.question (Some htmlQuiz) true 1
                     [Some ""; Some ""]%string [] false) []).
Proof.
  apply (double_next_advances_once (handleQuizSelect htmlQuiz initialWorld) htmlQuiz).
  - reflexivity.
  - cbn. lia.
  - reflexivity.
Defined.

(** ** Catalogues whose quizzes have the same number of questions *)

Lemma evenQuizzes_uniform : uniform_catalogue 2 evenQuizzes.
Proof.
  intros quiz Hin. unfold evenQuizzes in Hin. cbn in Hin.
  rewrite !elem_of_cons in Hin.
  destruct Hin as [-> | [-> | Hin]]; [reflexivity | reflexivity |].
  by apply elem_of_nil in Hin.
Qed.

Lemma interrupted_run_even_reachable :
  reachable evenQuizzes
    (mkWorld (mkSession QuizState.question (Some jsQuiz) true 1
                [Some ""; Some ""]%string [] false) []).
Proof.
  apply (run_reachable evenQuizzes
           [QuizSelect htmlQuiz; Next; BackToMenu; QuizSelect jsQuiz; TimerFires]
           initialWorld).
  - constructor.
  - unfold evenQuizzes. repeat (constructor; cbn; try done); set_solver.
  - reflexivity.
Qed.

Section UniformDrafts.
Variable n : nat.
Variable data : QuizData.
Hypothesis Huniform : uniform_catalogue n data.
Hypothesis Hpos : (0 < n)%nat.

Lemma drafts_step (w w' : World) (e : Event) :
  uniform_inv n w -> admissible data e -> exec e w = Some w' ->
  (forall quiz, selectedQuiz (session w) = Some quiz ->
     length (selectedAnswers (session w)) = length (questions quiz)) ->
  forall quiz, selectedQuiz (session w') = Some quiz ->
    length (selectedAnswers (session w')) = length (questions quiz).
Proof.
  intros (Hidx & Hsel & _ & _) Hadm Hexec IH quiz.
  destruct e; cbn in Hexec; try (injection Hexec as <-).
  - cbn. intros [= <-]. apply length_replicate.
  - cbn. intros Hq. unfold array_spread. rewrite array_set_length by lia.
    rewrite (IH quiz Hq). rewrite (Hsel quiz Hq). lia.
  - unfold handleNext. destruct (_ <? _); cbn; apply IH.
  - unfold handlePrevious. destruct (_ >? _); cbn; apply IH.
  - cbn. done.
  - cbn. apply IH.
  - unfold fireTimer in Hexec. destruct (timers w); [done |].
    injection Hexec as <-. cbn. apply IH.
Qed.

Lemma reachable_drafts (w : World) :
  reachable data w ->
  forall quiz, selectedQuiz (session w) = Some quiz ->
    length (selectedAnswers (session w)) = length (questions quiz).
Proof.
  induction 1 as [| w e w' Hreach IH Hadm Hexec].
  - cbn. done.
  - apply (drafts_step w w' e); try assumption.
    exact (reachable_uniform_inv n data Huniform Hpos w Hreach).
Qed.

(** X8: when every quiz of the catalogue has the same positive number
    of questions, every reachable world keeps both invariants of the
    session: on the question screen a quiz is selected and the index
    names one of its questions (whatever callbacks outlived their run),
    and the draft answers hold exactly one slot per question of the
    selected quiz. *)
Theorem uniform_catalogue_invariants (w : World) :
  reachable data w ->
  question_screen_ok (session w) /\
  forall quiz, selectedQuiz (session w) = Some quiz ->
    length (selectedAnswers (session w)) = length (questions quiz).
Proof.
  intros Hreach. split.
  - exact (question_screen_ok_uniform n data Huniform Hpos w Hreach).
  - by apply reachable_drafts.
Qed.

End UniformDrafts.

Lemma uniform_catalogue_invariants_witness :
  let s := mkSession QuizState.question (Some jsQuiz) true 1
             [Some ""; Some ""]%string [] false in
  question_screen_ok s /\
  forall quiz, selectedQuiz s = Some quiz ->
    length (selectedAnswers s) = length (questions quiz).
Proof.
  apply (uniform_catalogue_invariants 2 evenQuizzes evenQuizzes_uniform
           (Nat.lt_0_succ 1) _ interrupted_run_even_reachable).
Defined.

(** ** Through the rendered controls *)

(** What a click that is not a timer needs: the screen that renders the
    control, and on the question and results screens a selected quiz. *)
Lemma clickable_screen (data : QuizData) (w : World) (e : Event) :
  clickable data w e = true -> e <> TimerFires ->
  match currentState (session w) with
  | QuizState.menu =>
      (exists quiz, e = QuizSelect quiz) \/ e = ToggleTheme
  | QuizState.question =>
      selectedQuiz (session w) <> None /\
      ((exists a, e = AnswerSelect a) \/ e = Next \/ e = Previous \/ e = BackToMenu)
  | QuizState.result =>
      selectedQuiz (session w) <> None /\
      (e = QuizSelect (default emptyQuiz (selectedQuiz (session w))) \/ e = BackToMenu)
  | QuizState.completed => False
  end.
Proof.
  unfold clickable. intros Hc He.
  destruct e; try done;
    destruct (currentState (session w)), (selectedQuiz (session w)) as [q |];
    try discriminate Hc; eauto.
  all: try (destruct (_ <? 0); [discriminate Hc |];
            destruct (questions q !! _); [| discriminate Hc]).
  all: try discriminate Hc.
  all: try (split; [done | eauto 6]; fail).
  apply bool_decide_eq_true in Hc. subst. cbn. split; [done | by left].
Qed.

(** X9: in a world reached through the controls the screens render
    (timers firing at any moment), the results screen always has a
    selected quiz and final answers equal to the draft answers, the
    question screen always has a selected quiz, and the screen is never
    [completed]. *)
Theorem results_screen_through_controls (data : QuizData) (w : World) :
  reachable_ui data w ->
  (currentState (session w) = QuizState.result ->
     selectedQuiz (session w) <> None /\
     userAnswers (session w) = selectedAnswers (session w)) /\
  (currentState (session w) = QuizState.question -> selectedQuiz (session w) <> None) /\
  currentState (session w) <> QuizState.completed.
Proof.
  induction 1 as [| w e w' _ (Hres & Hq & Hc) Hclick Hexec].
  - cbn. repeat split; done.
  - destruct (decide (e = TimerFires)) as [-> | He].
    + cbn in Hexec. unfold fireTimer in Hexec. destruct (timers w); [done |].
      injection Hexec as <-. cbn. repeat split; tauto.
    + pose proof (clickable_screen data w e Hclick He) as Hscr.
      destruct e; cbn in Hexec; try done; injection Hexec as <-.
      * cbn. repeat split; done.
      * destruct (currentState (session w)) eqn:Hst;
          try (destruct Hscr as [[? ?] | ?]; done); try done.
        -- cbn. rewrite Hst. repeat split; done || tauto.
        -- destruct Hscr as [_ [? | ?]]; done.
      * destruct (currentState (session w)) eqn:Hst;
          try (destruct Hscr as [[? ?] | ?]; done); try done.
        -- destruct Hscr as [Hsel _]. unfold handleNext.
           destruct (_ <? _); cbn; [rewrite Hst |]; repeat split; done.
        -- destruct Hscr as [_ [? | ?]]; done.
      * destruct (currentState (session w)) eqn:Hst;
          try (destruct Hscr as [[? ?] | ?]; done); try done.
        -- unfold handlePrevious. destruct (_ >? _); cbn; rewrite Hst;
             repeat split; done || tauto.
        -- destruct Hscr as [_ [? | ?]]; done.
      * cbn. repeat split; done.
      * destruct (currentState (session w)) eqn:Hst; try done.
        -- cbn. rewrite Hst. repeat split; done.
        -- destruct Hscr as [_ [[? ?] | [? | [? | ?]]]]; done.
        -- destruct Hscr as [_ [? | ?]]; done.
Qed.

Lemma results_screen_through_controls_witness :
  let w := mkWorld (mkSession QuizState.result (Some cssQuiz) true 0
                      [Some "B"%string] [Some "B"%string] false) [] in
  (currentState (session w) = QuizState.result ->
     selectedQuiz (session w) <> None /\
     userAnswers (session w) = selectedAnswers (session w)) /\
  (currentState (session w) = QuizState.question -> selectedQuiz (session w) <> None) /\
  currentState (session w) <> QuizState.completed.
Proof.
  apply (results_screen_through_controls twoQuizzes).
  apply (reachable_ui_step twoQuizzes
           (handleAnswerSelect "B" (handleQuizSelect cssQuiz initialWorld)) Next);
    [| reflexivity | reflexivity].
  apply (reachable_ui_step twoQuizzes (handleQuizSelect cssQuiz initialWorld)
           (AnswerSelect "B")); [| reflexivity | reflexivity].
  apply (reachable_ui_step twoQuizzes initialWorld (QuizSelect cssQuiz));
    [constructor | reflexivity | reflexivity].
Defined.

(** ** Buttons and handlers *)

(** X10: for an index that names a question of the selected quiz, the
    button of [QuestionScreen] reads "Submit Quiz" ([isLastQuestion])
    exactly when [handleNext] shows the results rather than the
    feedback; and the Previous button is disabled exactly when
    [handlePrevious] would change nothing. *)
Theorem buttons_match_handlers (w : World) (quiz : Quiz) :
  selectedQuiz (session w) = Some quiz ->
  0 <= currentQuestionIndex (session w) < Z.of_nat (length (questions quiz)) ->
  (isLastQuestion quiz (session w) = true ->
     handleNext w = upd (setCurrentState QuizState.result)
                      (upd (setUserAnswers (selectedAnswers (session w))) w)) /\
  (isLastQuestion quiz (session w) = false ->
     handleNext w = setTimeout (currentQuestionIndex (session w))
                      (upd (setShowFeedback true) w)) /\
  (previous_disabled (session w) = true <-> handlePrevious w = w).
Proof.
  intros Hquiz Hidx. unfold isLastQuestion, previous_disabled, questionNumber.
  unfold handleNext, handlePrevious. rewrite Hquiz. cbn [questions_length_or_0].
  repeat split.
  - intros Hlast. apply Z.eqb_eq in Hlast.
    destruct (Z.ltb_spec (currentQuestionIndex (session w))
                (Z.of_nat (length (questions quiz)) - 1)); [lia | reflexivity].
  - intros Hlast. apply Z.eqb_neq in Hlast.
    destruct (Z.ltb_spec (currentQuestionIndex (session w))
                (Z.of_nat (length (questions quiz)) - 1)); [reflexivity | lia].
  - intros Hdis. apply Z.eqb_eq in Hdis.
    destruct (Z.gtb_spec (currentQuestionIndex (session w)) 0); [lia | reflexivity].
  - intros Hsame.
    destruct (Z.gtb_spec (currentQuestionIndex (session w)) 0) as [Hgt | Hle].
    + apply (f_equal (fun v => currentQuestionIndex (session v))) in Hsame.
      cbn in Hsame. lia.
    + apply Z.eqb_eq. lia.
Qed.

Lemma buttons_match_handlers_witness :
  handleNext onLastQuestion =
    upd (setCurrentState QuizState.result)
      (upd (setUserAnswers (selectedAnswers (session onLastQuestion))) onLastQuestion).
Proof.
  apply (buttons_match_handlers onLastQuestion htmlQuiz);
    [reflexivity | cbn; lia | reflexivity].
Defined.

(** * The setter of the persistent-state hook *)

Section SetValueProperties.
Context {T : Type}.
Variable JSON_stringify : T -> completion string.
Variable JSON_parse : string -> completion T.
Variable has_room : gmap string string -> string -> string -> bool.

(** X11: [setValue] never throws.  Given a value it always puts that
    value in the state cell, whether or not the value could be
    serialised and stored; a storage that could not be written is left
    as it was. *)
Theorem setValue_direct (key : string) (storedValue v : T) (c : HookCell T) :
  let r := setValue JSON_stringify has_room key storedValue (Direct v) c in
  snd r = Normal tt /\
  cell_value (fst r) = v /\
  (forall text items,
     JSON_stringify v = Normal text -> cell_storage c = Available items ->
     has_room items key text = true ->
     cell_storage (fst r) = Available (<[key := text]> items)) /\
  ((forall text, JSON_stringify v <> Normal text) \/
   (exists e, cell_storage c = Denied e) \/
   (exists text items, JSON_stringify v = Normal text /\
      cell_storage c = Available items /\ has_room items key text = false) ->
   cell_storage (fst r) = cell_storage c).
Proof.
  cbn. unfold setValue, hook_try, hook_bind, hook_lift, setStoredValue,
    localStorage_setItem, hook_ret, setItem. cbn.
  destruct (JSON_stringify v) as [text | err] eqn:Hs; cbn;
    [destruct (cell_storage c) as [items | e] eqn:Hls; cbn;
       [destruct (has_room items key text) eqn:Hroom; cbn |] |].
  all: split; [reflexivity |]; split; [reflexivity |]; split.
  all: try (intros text' items' Ht Hi Hr; simplify_eq; done || congruence).
  all: try (intros [Hno | [[e' He] | (t' & i' & Ht & Hi & Hr)]];
            [by destruct (Hno text) | simplify_eq | simplify_eq; congruence]).
  all: try done.
Qed.

(** X12: a value written by [setValue] is the value the hook starts
    from after a reload, when the storage took the write, the text is
    not empty and parses back to the value. *)
Theorem setValue_then_reload (key : string) (storedValue v initialValue : T)
    (c : HookCell T) (items : gmap string string) (text : string) :
  cell_storage c = Available items ->
  JSON_stringify v = Normal text ->
  has_room items key text = true ->
  text <> ""%string ->
  JSON_parse text = Normal v ->
  useLocalStorage_init JSON_parse
    (cell_storage (fst (setValue JSON_stringify has_room key storedValue (Direct v) c)))
    key initialValue = Normal v.
Proof.
  intros Hls Hs Hroom Hne Hp.
  destruct (setValue_direct key storedValue v c) as (_ & _ & Hstored & _).
  rewrite (Hstored text items Hs Hls Hroom).
  unfold useLocalStorage_init. cbn. rewrite lookup_insert_eq. cbn.
  rewrite bool_decide_eq_false_2 by done. cbn. rewrite Hp. reflexivity.
Qed.

(** X13: [setValue] for one key does not change what the hook reads for
    another key. *)
Theorem setValue_other_key (key key' : string) (storedValue : T) (value : SetArg T)
    (initialValue : T) (c : HookCell T) :
  key' <> key ->
  useLocalStorage_init JSON_parse
    (cell_storage (fst (setValue JSON_stringify has_room key storedValue value c)))
    key' initialValue
  = useLocalStorage_init JSON_parse (cell_storage c) key' initialValue.
Proof.
  intros Hne.
  unfold setValue, hook_try, hook_bind, hook_lift, setStoredValue,
    localStorage_setItem, hook_ret, setItem. cbn.
  destruct (match value with Updater f => f storedValue | Direct v => Normal v end)
    as [v |]; cbn; [| reflexivity].
  destruct (JSON_stringify v) as [text |]; cbn; [| reflexivity].
  destruct (cell_storage c) as [items | e]; cbn; [| reflexivity].
  destruct (has_room items key text); cbn; [| reflexivity].
  unfold useLocalStorage_init. cbn. by rewrite lookup_insert_ne.
Qed.

(** X14: an updater function is applied to the value of the render that
    created the setter, not to the latest state: of two updates made
    with the same setter the second overrides the first instead of
    composing with it.  An updater that throws changes nothing. *)
Theorem setValue_updater_stale (key : string) (storedValue : T)
    (f g : T -> completion T) (x y : T) (c : HookCell T) :
  f storedValue = Normal x ->
  g storedValue = Normal y ->
  let c1 := fst (setValue JSON_stringify has_room key storedValue (Updater f) c) in
  let c2 := fst (setValue JSON_stringify has_room key storedValue (Updater g) c1) in
  cell_value c1 = x /\
  cell_value c2 = y /\
  (forall e h, h storedValue = Throw e ->
     setValue JSON_stringify has_room key storedValue (Updater h) c = (c, Normal tt)).
Proof.
  intros Hf Hg. cbn.
  unfold setValue, hook_try, hook_bind, hook_lift, setStoredValue,
    localStorage_setItem, hook_ret, setItem. cbn.
  rewrite Hf. cbn. repeat split.
  - destruct (JSON_stringify x); cbn; [| reflexivity].
    destruct (cell_storage c); cbn; [| reflexivity].
    by destruct (has_room _ _ _).
  - rewrite Hg. cbn. destruct (JSON_stringify y); cbn; [| reflexivity].
    match goal with |- context [cell_storage ?c0] => destruct (cell_storage c0) end;
      cbn; [| reflexivity].
    by destruct (has_room _ _ _).
  - intros e h Hh. rewrite Hh. reflexivity.
Qed.

End SetValueProperties.

Lemma setValue_direct_witness :
  let r := setValue JSON_stringify_boolean always_room "quiz-theme" true (Direct false)
             (mkHookCell true (Denied "SecurityError")) in
  snd r = Normal tt /\ cell_value (fst r) = false /\
  cell_storage (fst r) = Denied "SecurityError".
Proof.
  destruct (setValue_direct JSON_stringify_boolean always_room "quiz-theme" true false
              (mkHookCell true (Denied "SecurityError"))) as (Hn & Hv & _ & Hkeep).
  split; [exact Hn |]. split; [exact Hv |].
  apply Hkeep. right. left. by exists "SecurityError"%string.
Defined.

Lemma setValue_then_reload_witness :
  useLocalStorage_init JSON_parse_boolean
    (cell_storage (fst (setValue JSON_stringify_boolean always_room "quiz-theme" true
                          (Direct false) (mkHookCell true (Available ∅)))))
    "quiz-theme" true = Normal false.
Proof.
  apply (setValue_then_reload JSON_stringify_boolean JSON_parse_boolean always_room
           "quiz-theme" true false true (mkHookCell true (Available ∅)) ∅ "false");
    try reflexivity.
  discriminate.
Defined.

Lemma setValue_other_key_witness :
  useLocalStorage_init JSON_parse_boolean
    (cell_storage (fst (setValue JSON_stringify_boolean always_room "quiz-theme" true
                          (Direct false) (mkHookCell true (Available ∅)))))
    "quiz-show-feedback" false
  = useLocalStorage_init JSON_parse_boolean (Available ∅) "quiz-show-feedback" false.
Proof.
  apply (setValue_other_key JSON_stringify_boolean JSON_parse_boolean always_room
           "quiz-theme" "quiz-show-feedback" true (Direct false) false
           (mkHookCell true (Available ∅))).
  discriminate.
Defined.

Lemma setValue_updater_stale_witness :
  let flip := fun b : bool => Normal (negb b) in
  let c := mkHookCell true (Available ∅) in
  let c1 := fst (setValue JSON_stringify_boolean always_room "quiz-theme" true
                   (Updater flip) c) in
  let c2 := fst (setValue JSON_stringify_boolean always_room "quiz-theme" true
                   (Updater flip) c1) in
  cell_value c1 = false /\ cell_value c2 = false.
Proof.
  destruct (setValue_updater_stale JSON_stringify_boolean always_room "quiz-theme" true
              (fun b => Normal (negb b)) (fun b => Normal (negb b)) false false
              (mkHookCell true (Available ∅)) eq_refl eq_refl) as (H1 & H2 & _).
  split; [exact H1 | exact H2].
Defined.

(** X15: an item that is present, not empty and parses is what the hook
    starts from, whatever the default; an item that is the empty string
    counts as absent, and [JSON.parse] is not consulted. *)
Theorem useLocalStorage_init_present {T : Type} (JSON_parse : string -> completion T)
    (items : gmap string string) (key text : string) (initialValue : T) :
  items !! key = Some text ->
  (forall v, text <> ""%string -> JSON_parse text = Normal v ->
     useLocalStorage_init JSON_parse (Available items) key initialValue = Normal v) /\
  (text = ""%string ->
     useLocalStorage_init JSON_parse (Available items) key initialValue
       = Normal initialValue).
Proof.
  intros Hitem. unfold useLocalStorage_init. cbn. rewrite Hitem. cbn. split.
  - intros v Hne Hp. rewrite bool_decide_eq_false_2 by done. cbn. by rewrite Hp.
  - intros ->. reflexivity.
Qed.

Lemma useLocalStorage_init_present_witness :
  useLocalStorage_init JSON_parse_boolean
    (Available {["quiz-theme"%string := "false"%string]}) "quiz-theme" true = Normal false /\
  useLocalStorage_init JSON_parse_boolean
    (Available {["quiz-theme"%string := ""%string]}) "quiz-theme" true = Normal true.
Proof.
  split.
  - apply (useLocalStorage_init_present JSON_parse_boolean
             {["quiz-theme"%string := "false"%string]} "quiz-theme" "false" true);
      [vm_compute; reflexivity | discriminate | reflexivity].
  - apply (useLocalStorage_init_present JSON_parse_boolean
             {["quiz-theme"%string := ""%string]} "quiz-theme" "" true);
      [vm_compute; reflexivity | reflexivity].
Defined.

(** * Further properties of the score *)

Lemma filter_all {A} (P : A -> Prop) `{!forall x, Decision (P x)} (l : list A) :
  (forall x, x ∈ l -> P x) -> filter P l = l.
Proof.
  induction l as [| a l IH]; intros Hall; [done |].
  rewrite filter_cons. destruct (decide (P a)) as [_ | Hn].
  - f_equal. apply IH. intros x Hx. apply Hall. by right.
  - destruct Hn. apply Hall. left.
Qed.

Lemma filter_none {A} (P : A -> Prop) `{!forall x, Decision (P x)} (l : list A) :
  (forall x, x ∈ l -> ~ P x) -> filter P l = [].
Proof.
  induction l as [| a l IH]; intros Hall; [done |].
  rewrite filter_cons. destruct (decide (P a)) as [Hp | _].
  - destruct (Hall a); [left | exact Hp].
  - apply IH. intros x Hx. apply Hall. by right.
Qed.

(** X16: the score never exceeds the number of questions, and it
    depends on the answer list only through the slots that face a
    question: two answer lists that agree there score the same, so
    answers past the last question count for nothing. *)
Theorem calculateScore_bounded_local (quiz : Quiz) (a b : js_array) :
  (calculateScore quiz a <= length (questions quiz))%nat /\
  ((forall i, (i < length (questions quiz))%nat -> a !! i = b !! i) ->
   calculateScore quiz a = calculateScore quiz b) /\
  calculateScore quiz (take (length (questions quiz)) a) = calculateScore quiz a.
Proof.
  assert (Hlocal : forall x y : js_array,
            (forall i, (i < length (questions quiz))%nat -> x !! i = y !! i) ->
            calculateScore quiz x = calculateScore quiz y).
  { intros x y Hagree. rewrite !calculateScore_count.
    unfold count_correct, matching_indices. f_equal.
    apply filter_ext_elem. intros i Hi. apply elem_of_seq in Hi.
    rewrite Hagree by lia. reflexivity. }
  split; [| split].
  - rewrite calculateScore_count. apply count_correct_le.
  - apply Hlocal.
  - apply Hlocal. intros i Hi. by apply lookup_take_lt.
Qed.

Lemma calculateScore_bounded_local_witness :
  calculateScore htmlQuiz [Some "B"; Some "A"; Some "B"; Some "B"]%string
  = calculateScore htmlQuiz [Some "B"; Some "A"]%string.
Proof.
  apply (calculateScore_bounded_local htmlQuiz).
  intros [| [| i]] Hi; [reflexivity | reflexivity | cbn in Hi; lia].
Defined.

(** X17: the answer list that holds the right answer of every question
    scores the number of questions, and for a quiz of 1 to 39 questions
    the percentage shown is 100.  The draft answers of a fresh run (one
    empty string per question) score 0 when no question has the empty
    string as its answer. *)
Theorem calculateScore_extremes (quiz : Quiz) :
  calculateScore quiz (right_answers quiz) = length (questions quiz) /\
  ((1 <= length (questions quiz) <= 39)%nat ->
   percentage quiz (right_answers quiz) = 100%float) /\
  ((forall q, q ∈ questions quiz -> answer q <> ""%string) ->
   calculateScore quiz (array_fill (length (questions quiz)) "") = 0%nat).
Proof.
  assert (Hfull : calculateScore quiz (right_answers quiz) = length (questions quiz)).
  { rewrite calculateScore_count. unfold count_correct, matching_indices.
    rewrite filter_all; [by rewrite length_seq |].
    intros i Hi. apply elem_of_seq in Hi. unfold right_answers, js_array, slot.
    rewrite list_lookup_fmap.
    destruct (lookup_lt_is_Some_2 (questions quiz) i) as [q Hq]; [lia |].
    by rewrite Hq. }
  split; [exact Hfull |]. split.
  - intros Hlen. unfold percentage. rewrite Hfull.
    rewrite percentage_of_exact by lia.
    unfold exact_percentage, round_half_up.
    replace ((2 * (100 * Z.of_nat (length (questions quiz)))
              + Z.of_nat (length (questions quiz)))
             / (2 * Z.of_nat (length (questions quiz)))) with 100; [reflexivity |].
    apply Z.div_unique with (r := Z.of_nat (length (questions quiz))); lia.
  - intros Hne. rewrite calculateScore_count. unfold count_correct, matching_indices.
    rewrite filter_none; [reflexivity |].
    intros i Hi. apply elem_of_seq in Hi. unfold array_fill, js_array, slot.
    rewrite lookup_replicate_2 by lia.
    destruct (lookup_lt_is_Some_2 (questions quiz) i) as [q Hq]; [lia |].
    rewrite Hq. cbn. intros [= Heq].
    apply (Hne q); [by eapply list_elem_of_lookup_2 | done].
Qed.

Lemma calculateScore_extremes_witness :
  percentage htmlQuiz (right_answers htmlQuiz) = 100%float /\
  calculateScore htmlQuiz (array_fill (length (questions htmlQuiz)) "") = 0%nat.
Proof.
  destruct (calculateScore_extremes htmlQuiz) as (_ & Hpct & Hzero).
  split.
  - apply Hpct. cbn. lia.
  - apply Hzero. intros q Hq. unfold htmlQuiz in Hq. cbn in Hq.
    rewrite !elem_of_cons in Hq.
    destruct Hq as [-> | [-> | Hq]]; [discriminate | discriminate |].
    by apply elem_of_nil in Hq.
Defined.

Lemma lookup_right_iff (a : list (option string)) (j : nat) (s : string) :
  a !! j = Some (Some s) <-> array_get a (Z.of_nat j) = Some s.
Proof.
  rewrite array_get_nat. unfold js_array, slot.
  destruct (a !! j) as [[t |] |]; cbn; split; congruence.
Qed.

(** X18: writing the right answer of a question into a slot that did
    not hold it raises the score by exactly one. *)
Theorem calculateScore_correcting (quiz : Quiz) (a : js_array) (i : nat) (q : Question) :
  questions quiz !! i = Some q ->
  a !! i <> Some (Some (answer q)) ->
  calculateScore quiz (array_set a (Z.of_nat i) (answer q)) = S (calculateScore quiz a).
Proof.
  intros Hq Hwrong. rewrite !calculateScore_count.
  unfold count_correct, matching_indices.
  pose proof (lookup_lt_Some _ _ _ Hq) as Hlt.
  set (a' := array_set a (Z.of_nat i) (answer q)).
  unfold js_array, slot in *.
  assert (Hother : forall j, (j < length (questions quiz))%nat -> j <> i ->
            (a' !! j = Some (answer <$> questions quiz !! j)
             <-> a !! j = Some (answer <$> questions quiz !! j))).
  { intros j Hjn Hj.
    destruct (lookup_lt_is_Some_2 (questions quiz) j Hjn) as [qj Hqj].
    rewrite Hqj. cbn. rewrite !lookup_right_iff. subst a'.
    rewrite array_get_set by lia.
    destruct (Z.eqb_spec (Z.of_nat j) (Z.of_nat i)); [lia | reflexivity]. }
  assert (Hat : a' !! i = Some (answer <$> questions quiz !! i)).
  { rewrite Hq. cbn. apply lookup_right_iff. subst a'.
    rewrite array_get_set by lia. by rewrite Z.eqb_refl. }
  assert (Hnot : a !! i <> Some (answer <$> questions quiz !! i))
    by (rewrite Hq; exact Hwrong).
  assert (Hpre : filter (fun j => a' !! j = Some (answer <$> questions quiz !! j)) (seq 0 i)
               = filter (fun j => a !! j = Some (answer <$> questions quiz !! j)) (seq 0 i)).
  { apply filter_ext_elem. intros j Hj. apply elem_of_seq in Hj. apply Hother; lia. }
  assert (Hpost :
    filter (fun j => a' !! j = Some (answer <$> questions quiz !! j))
           (seq (S i) (length (questions quiz) - S i))
    = filter (fun j => a !! j = Some (answer <$> questions quiz !! j))
             (seq (S i) (length (questions quiz) - S i))).
  { apply filter_ext_elem. intros j Hj. apply elem_of_seq in Hj. apply Hother; lia. }
  replace (seq 0 (length (questions quiz)))
    with (seq 0 i ++ i :: seq (S i) (length (questions quiz) - S i)).
  2:{ replace (length (questions quiz)) with (i + S (length (questions quiz) - S i))%nat
        at 2 by lia.
      by rewrite seq_app. }
  rewrite !filter_app, !filter_cons, Hpre, Hpost.
  destruct (decide (a' !! i = Some (answer <$> questions quiz !! i))); [| done].
  destruct (decide (a !! i = Some (answer <$> questions quiz !! i))); [done |].
  rewrite !length_app. cbn. lia.
Qed.

Lemma calculateScore_correcting_witness :
  calculateScore htmlQuiz (array_set [Some "B"; Some "A"]%string 1 "B") = 2%nat.
Proof.
  apply (calculateScore_correcting htmlQuiz [Some "B"; Some "A"]%string 1
           (sampleQuestion "q2")).
  - reflexivity.
  - discriminate.
Defined.

(** * The question screen *)

(** X19: the styles of an option agree with each other.  While feedback
    is shown, the background and the border are green exactly for the
    correct option, red exactly for a selected wrong option, and the
    icon is a check mark on green, a cross on red and absent otherwise,
    with the colour of the button; only an option that is neither
    correct nor selected is dimmed.  Without feedback no option is green
    or red and none has an icon. *)
Theorem option_styles_agree (p : OptionProps) :
  (p_showFeedback p = true ->
     (OptionButton_background p = "#26D782"%string <-> p_isCorrect p = true) /\
     (OptionButton_border p = "#26D782"%string <-> p_isCorrect p = true) /\
     (OptionButton_background p = "#EE5454"%string <->
        p_isSelected p = true /\ p_isCorrect p = false) /\
     (OptionButton_border p = "#EE5454"%string <->
        p_isSelected p = true /\ p_isCorrect p = false) /\
     (feedback_icon p = Some check_mark <-> p_isCorrect p = true) /\
     (feedback_icon p = Some cross_mark <->
        p_isSelected p = true /\ p_isCorrect p = false) /\
     (forall m, feedback_icon p = Some m ->
        OptionButton_background p = FeedbackIcon_background (p_isCorrect p) /\
        OptionButton_color p = "#FFFFFF"%string) /\
     (OptionButton_dimmed p = true <-> feedback_icon p = None)) /\
  (p_showFeedback p = false ->
     feedback_icon p = None /\ OptionButton_dimmed p = false /\
     OptionButton_background p <> "#26D782"%string /\
     OptionButton_background p <> "#EE5454"%string /\
     OptionButton_border p <> "#26D782"%string /\
     OptionButton_border p <> "#EE5454"%string).
Proof.
  destruct p as [d s c f].
  unfold OptionButton_background, OptionButton_border, OptionButton_color,
    OptionButton_dimmed, feedback_icon, FeedbackIcon_background. cbn.
  split; intros ->; destruct d, s, c; cbn; repeat split;
    try done; try (intros [? ?]; done); try (intros ? ?; done).
Qed.

Lemma option_styles_agree_witness :
  OptionButton_background (mkOptionProps true true false true) = "#EE5454"%string /\
  feedback_icon (mkOptionProps true true false true) = Some cross_mark.
Proof.
  destruct (option_styles_agree (mkOptionProps true true false true))
    as [(_ & _ & Hbg & _ & _ & Hicon & _) _]; [reflexivity |].
  split; [by apply Hbg | by apply Hicon].
Defined.

Lemma rendered_icon_at (isDark : bool) (q : Question) (sel : slot) (i : nat) :
  rendered_icons isDark true q sel !! i =
    (fun o => if strict_eq sel o || bool_decide (o = answer q)
              then Some (if bool_decide (o = answer q) then check_mark else cross_mark)
              else None) <$> options q !! i.
Proof. unfold rendered_icons. by rewrite list_lookup_fmap. Qed.

(** X20: while feedback is shown, the option at a position carries the
    check mark exactly when it is the answer of the question, and the
    cross exactly when it is the selected answer and not the answer of
    the question.  When the options are pairwise different and the
    answer is one of them, exactly one option carries the check mark
    and at most one the cross. *)
Theorem rendered_icons_marks (isDark : bool) (q : Question) (sel : slot) :
  let icons := rendered_icons isDark true q sel in
  (forall i, icons !! i = Some (Some check_mark) <-> options q !! i = Some (answer q)) /\
  (forall i, icons !! i = Some (Some cross_mark) <->
     exists o, options q !! i = Some o /\ sel = Some o /\ o <> answer q) /\
  (NoDup (options q) -> answer q ∈ options q ->
     (exists i, icons !! i = Some (Some check_mark) /\
        forall j, icons !! j = Some (Some check_mark) -> j = i) /\
     (forall i j, icons !! i = Some (Some cross_mark) ->
        icons !! j = Some (Some cross_mark) -> i = j)).
Proof.
  intros icons.
  assert (Hcheck : forall i, icons !! i = Some (Some check_mark)
                             <-> options q !! i = Some (answer q)).
  { intros i. subst icons. rewrite rendered_icon_at.
    destruct (options q !! i) as [o |]; cbn; [| done].
    destruct (bool_decide_reflect (o = answer q)) as [-> | Hne].
    - rewrite orb_true_r. done.
    - destruct (strict_eq sel o); cbn; split; intros [=]; done. }
  assert (Hcross : forall i, icons !! i = Some (Some cross_mark) <->
            exists o, options q !! i = Some o /\ sel = Some o /\ o <> answer q).
  { intros i. subst icons. rewrite rendered_icon_at.
    destruct (options q !! i) as [o |]; cbn; [| split; [done | intros (? & [=] & _)]].
    destruct (bool_decide_reflect (o = answer q)) as [-> | Hne].
    - rewrite orb_true_r. split; [done | intros (o' & [= <-] & _ & Hn); done].
    - rewrite orb_false_r. destruct sel as [t |]; cbn.
      + destruct (bool_decide_reflect (t = o)) as [-> | Hto].
        * split; [intros _; by exists o | done].
        * split; [done | intros (o' & [= <-] & [= ->] & _); done].
      + split; [done | intros (o' & _ & [=] & _)]. }
  split; [exact Hcheck |]. split; [exact Hcross |].
  intros Hnodup Hin. split.
  - apply list_elem_of_lookup in Hin as [i Hi]. exists i. split.
    + by apply Hcheck.
    + intros j Hj. apply Hcheck in Hj. exact (NoDup_lookup _ j i _ Hnodup Hj Hi).
  - intros i j Hi Hj.
    apply Hcross in Hi as (o & Hoi & Hsel & _).
    apply Hcross in Hj as (o' & Hoj & Hsel' & _).
    rewrite Hsel in Hsel'. injection Hsel' as <-.
    exact (NoDup_lookup _ i j _ Hnodup Hoi Hoj).
Qed.

Lemma rendered_icons_marks_witness :
  rendered_icons true true (sampleQuestion "q1") (Some "A"%string)
  = [Some cross_mark; Some check_mark; None; None] /\
  exists i, rendered_icons true true (sampleQuestion "q1") (Some "A"%string) !! i
              = Some (Some check_mark) /\
    forall j, rendered_icons true true (sampleQuestion "q1") (Some "A"%string) !! j
                = Some (Some check_mark) -> j = i.
Proof.
  split; [reflexivity |].
  apply (rendered_icons_marks true (sampleQuestion "q1") (Some "A"%string)).
  - apply (bool_decide_unpack _). vm_compute. exact I.
  - apply (bool_decide_unpack _). vm_compute. exact I.
Defined.

(** X21: for a quiz of 1 to 100 questions the progress passed to the
    progress bar is 0 on the first question, grows with the question
    number, and stays below 100 on every question, the last included. *)
Theorem progress_bar_range (questionNumber totalQuestions : Z) :
  1 <= totalQuestions <= 100 ->
  1 <= questionNumber <= totalQuestions ->
  PrimFloat.eqb (progress 1 totalQuestions) 0%float = true /\
  PrimFloat.leb 0%float (progress questionNumber totalQuestions) = true /\
  PrimFloat.ltb (progress questionNumber totalQuestions) 100%float = true /\
  (questionNumber < totalQuestions ->
     PrimFloat.ltb (progress questionNumber totalQuestions)
                   (progress (questionNumber + 1) totalQuestions) = true).
Proof.
  intros Ht Hk.
  assert (Htable : progress_table 100 = true) by (vm_compute; reflexivity).
  unfold progress_table in Htable. rewrite forallb_forall in Htable.
  specialize (Htable (Z.to_nat totalQuestions)).
  rewrite Z2Nat.id in Htable by lia.
  assert (Hin : In (Z.to_nat totalQuestions) (seq 1 100)) by (apply in_seq; lia).
  apply Htable in Hin. apply andb_true_iff in Hin as [Hfirst Hrow].
  rewrite forallb_forall in Hrow.
  specialize (Hrow (Z.to_nat questionNumber)).
  rewrite Z2Nat.id in Hrow by lia.
  assert (Hk' : In (Z.to_nat questionNumber) (seq 1 (Z.to_nat totalQuestions)))
    by (apply in_seq; lia).
  apply Hrow in Hk'.
  apply andb_true_iff in Hk' as [Hk' Hnext].
  apply andb_true_iff in Hk' as [Hge Hlt].
  repeat split; try assumption.
  intros Hless. apply orb_true_iff in Hnext as [Heq | Hn]; [| exact Hn].
  apply Nat.eqb_eq in Heq. lia.
Qed.

Lemma progress_bar_range_witness :
  PrimFloat.ltb (progress 10 10) 100%float = true /\
  PrimFloat.eqb (progress 10 10) 90%float = true.
Proof.
  destruct (progress_bar_range 10 10) as (_ & _ & Hlt & _); [lia | lia |].
  split; [exact Hlt | reflexivity].
Defined.

(** * [App] without the feedback delay *)

Lemma session_inv_step (data : QuizData) (s : AppWithoutFeedback.Session)
    (e : AppWithoutFeedback.Event) :
  nonempty_catalogue data -> AppWithoutFeedback.admissible data e ->
  AppWithoutFeedback.session_inv s ->
  AppWithoutFeedback.session_inv (AppWithoutFeedback.exec e s).
Proof.
  intros Hne Hadm (Hidx & Hsel & Hscr).
  destruct e; cbn [AppWithoutFeedback.exec].
  - cbn in Hadm. specialize (Hne quiz Hadm).
    split; [cbn; lia |]. split; [| done].
    cbn. intros q [= <-]. split; [| apply length_replicate].
    destruct (questions quiz); [done | cbn; lia].
  - split; [exact Hidx |]. split; [| exact Hscr].
    cbn. intros q Hq. destruct (Hsel q Hq) as [Hlt Hlen]. split; [exact Hlt |].
    unfold array_spread. rewrite array_set_length by lia. lia.
  - unfold AppWithoutFeedback.handleNext.
    destruct (Z.ltb_spec (AppWithoutFeedback.currentQuestionIndex s)
                (questions_length_or_0 (AppWithoutFeedback.selectedQuiz s) - 1))
      as [Hlt | Hge].
    + split; [cbn; lia |]. split; [| exact Hscr].
      cbn. intros q Hq. rewrite Hq in Hlt. cbn in Hlt.
      destruct (Hsel q Hq) as [_ Hlen]. split; [lia | exact Hlen].
    + split; [exact Hidx |]. split; [exact Hsel | done].
  - unfold AppWithoutFeedback.handlePrevious.
    destruct (Z.gtb_spec (AppWithoutFeedback.currentQuestionIndex s) 0) as [Hgt | Hle].
    + split; [cbn; lia |]. split; [| exact Hscr].
      cbn. intros q Hq. destruct (Hsel q Hq) as [Hlt Hlen]. split; [lia | exact Hlen].
    + split; [exact Hidx |]. split; [exact Hsel | exact Hscr].
  - split; [cbn; lia |]. split; done.
  - split; [exact Hidx |]. split; [exact Hsel | exact Hscr].
Qed.

(** X22: in the version of [src/App.tsx], whose [handleNext] moves on at
    once, every reachable session keeps both invariants for every
    catalogue without empty quizzes: on the question screen a quiz is
    selected and the index names one of its questions, and the draft
    answers hold one slot per question of the selected quiz. *)
Theorem immediate_app_invariants (data : QuizData) (s : AppWithoutFeedback.Session) :
  nonempty_catalogue data ->
  AppWithoutFeedback.reachable data s ->
  AppWithoutFeedback.question_screen_ok s /\ AppWithoutFeedback.drafts_ok s.
Proof.
  intros Hne Hreach.
  assert (Hinv : AppWithoutFeedback.session_inv s).
  { induction Hreach as [| s e _ IH Hadm].
    - repeat split; cbn; done.
    - by apply (session_inv_step data). }
  destruct Hinv as (Hidx & Hsel & Hscr). split.
  - intros Hq. specialize (Hscr Hq).
    destruct (AppWithoutFeedback.selectedQuiz s) as [quiz |] eqn:Hsq; [| done].
    exists quiz. split; [reflexivity |]. destruct (Hsel quiz eq_refl). lia.
  - intros quiz Hq. by apply Hsel.
Qed.

Lemma twoQuizzes_nonempty : nonempty_catalogue twoQuizzes.
Proof.
  intros quiz Hin. unfold twoQuizzes in Hin. cbn in Hin.
  rewrite !elem_of_cons in Hin.
  destruct Hin as [-> | [-> | Hin]]; [discriminate | discriminate |].
  by apply elem_of_nil in Hin.
Qed.

Lemma immediate_app_invariants_witness :
  let s := AppWithoutFeedback.run
             [AppWithoutFeedback.QuizSelect htmlQuiz; AppWithoutFeedback.Next;
              AppWithoutFeedback.BackToMenu; AppWithoutFeedback.QuizSelect cssQuiz]
             AppWithoutFeedback.initialSession in
  AppWithoutFeedback.question_screen_ok s /\ AppWithoutFeedback.drafts_ok s.
Proof.
  apply (immediate_app_invariants twoQuizzes); [exact twoQuizzes_nonempty |].
  cbn.
  apply (AppWithoutFeedback.reachable_step twoQuizzes _
           (AppWithoutFeedback.QuizSelect cssQuiz)); [| cbn; set_solver].
  apply (AppWithoutFeedback.reachable_step twoQuizzes _ AppWithoutFeedback.BackToMenu);
    [| exact I].
  apply (AppWithoutFeedback.reachable_step twoQuizzes _ AppWithoutFeedback.Next);
    [| exact I].
  apply (AppWithoutFeedback.reachable_step twoQuizzes _
           (AppWithoutFeedback.QuizSelect htmlQuiz)); [| cbn; set_solver].
  constructor.
Defined.

(** X23: the version with the feedback delay, when every feedback is
    waited out, does what the version of [src/App.tsx] does.  On the
    cells the two share, each handler other than [handleNext] acts as
    its counterpart; and with no callback pending, [handleNext] followed
    by the end of the feedback it may have started acts as the immediate
    [handleNext], leaving no callback pending. *)
Theorem feedback_app_refines_immediate (w : World) :
  (forall quiz, forget_feedback (session (handleQuizSelect quiz w))
     = AppWithoutFeedback.handleQuizSelect quiz (forget_feedback (session w))) /\
  (forall a, forget_feedback (session (handleAnswerSelect a w))
     = AppWithoutFeedback.handleAnswerSelect a (forget_feedback (session w))) /\
  forget_feedback (session (handlePrevious w))
    = AppWithoutFeedback.handlePrevious (forget_feedback (session w)) /\
  forget_feedback (session (handleBackToMenu w))
    = AppWithoutFeedback.handleBackToMenu (forget_feedback (session w)) /\
  forget_feedback (session (toggleTheme w))
    = AppWithoutFeedback.toggleTheme (forget_feedback (session w)) /\
  (timers w = [] ->
   exists w', next_and_wait w = Some w' /\ timers w' = [] /\
     forget_feedback (session w')
       = AppWithoutFeedback.handleNext (forget_feedback (session w))).
Proof.
  repeat split; try reflexivity.
  - unfold handlePrevious, AppWithoutFeedback.handlePrevious. cbn.
    by destruct (_ >? _).
  - intros Htim. unfold next_and_wait, handleNext, AppWithoutFeedback.handleNext. cbn.
    destruct (_ <? _); unfold fireTimer, setTimeout, upd; cbn; rewrite Htim; cbn.
    + eexists. split; [reflexivity |]. split; reflexivity.
    + eexists. split; [reflexivity |]. split; reflexivity.
Qed.

Lemma feedback_app_refines_immediate_witness :
  exists w', next_and_wait (handleQuizSelect htmlQuiz initialWorld) = Some w' /\
    timers w' = [] /\
    forget_feedback (session w')
      = AppWithoutFeedback.handleNext
          (AppWithoutFeedback.handleQuizSelect htmlQuiz AppWithoutFeedback.initialSession).
Proof.
  apply (feedback_app_refines_immediate (handleQuizSelect htmlQuiz initialWorld)).
  reflexivity.
Defined.
